(** * Slide transitions engine (transitions.js): a shallow embedding

    The engine opens a PPTX archive with JSZip, lists the slide parts
    [ppt/slides/slideN.xml], sorts them by N, and inserts a transition
    fragment before the closing [</p:sld>] tag of every slide but the
    first.  Everything runs inside one [try]; the [catch] hands back the
    blob it was given.

    Strings are [string], the archive is an ordered association list (a JS
    object enumerates its string keys in insertion order), exceptions and
    rejected promises are the [Throw] case of a small error monad. *)

From Stdlib Require Import String Ascii List Bool Arith NArith ZArith Lia.
From Stdlib Require Import Permutation Sorted.
Import ListNotations.

Local Open Scope list_scope.
Local Open Scope string_scope.

(* ================================================================= *)
(** ** Exceptions *)

Inductive Exception : Type :=
| TypeError        (* property access on null or undefined *)
| ReferenceError   (* the global JSZip is not defined *)
| ZipError.        (* a promise of the archive library rejected *)

Inductive Result (A : Type) : Type :=
| Ok (a : A)
| Throw (e : Exception).

Arguments Ok {A} a.
Arguments Throw {A} e.

Definition bind {A B : Type} (c : Result A) (k : A -> Result B) : Result B :=
  match c with
  | Ok a => k a
  | Throw e => Throw e
  end.

Notation "x <- c ;; k" := (bind c (fun x => k))
  (at level 61, c at next level, right associativity).

(* ================================================================= *)
(** ** JavaScript strings: indexOf, replace, string concatenation *)

(** [s] with the prefix [p] removed, when [s] starts with [p]. *)
Fixpoint strip_prefix (p s : string) : option string :=
  match p with
  | EmptyString => Some s
  | String a p' =>
      match s with
      | EmptyString => None
      | String b s' => if Ascii.eqb a b then strip_prefix p' s' else None
      end
  end.

(** [String.prototype.indexOf]: the position of the first occurrence of
    [needle] at or after [pos], or -1. *)
Fixpoint indexOf_from (needle s : string) (pos : Z) : Z :=
  match strip_prefix needle s with
  | Some _ => pos
  | None =>
      match s with
      | EmptyString => (-1)%Z
      | String _ s' => indexOf_from needle s' (pos + 1)%Z
      end
  end.

Definition indexOf (s needle : string) : Z := indexOf_from needle s 0%Z.

(** [String.prototype.replace] with a string pattern: only the first
    occurrence is replaced.  The replacement is taken literally; the
    replacement texts built below hold no dollar sign, the one character
    [replace] treats specially (see [replacement_is_literal]). *)
Fixpoint replace (s pat repl : string) : string :=
  match strip_prefix pat s with
  | Some rest => repl ++ rest
  | None =>
      match s with
      | EmptyString => EmptyString
      | String c s' => String c (replace s' pat repl)
      end
  end.

(** [x + str] where [x] may be [undefined]. *)
Definition js_plus (x : option string) (str : string) : string :=
  match x with
  | Some t => t ++ str
  | None => "undefined" ++ str
  end.

(** [pat] occurs somewhere in [s]. *)
Definition occurs (pat s : string) : Prop :=
  exists pre post, s = pre ++ pat ++ post.

(* ================================================================= *)
(** ** The two regular expressions *)

Definition is_digit (c : ascii) : bool :=
  let n := nat_of_ascii c in (48 <=? n)%nat && (n <=? 57)%nat.

(** The longest run of digits at the head of [s], and what follows it:
    a greedy [\d*]. *)
Fixpoint span_digits (s : string) : string * string :=
  match s with
  | EmptyString => (EmptyString, EmptyString)
  | String c s' =>
      if is_digit c
      then let (ds, rest) := span_digits s' in (String c ds, rest)
      else (EmptyString, s)
  end.

(** [/^ppt\/slides\/slide\d+\.xml$/.test(relativePath)].  The character
    after the digit run must be the dot, which is no digit, so the greedy
    run is the only way to match. *)
Definition test_slide_path (relativePath : string) : bool :=
  match strip_prefix "ppt/slides/slide" relativePath with
  | None => false
  | Some rest =>
      let (ds, tail) := span_digits rest in
      negb (String.eqb ds EmptyString) && String.eqb tail ".xml"
  end.

(** [s.match(/slide(\d+)/)]: the leftmost position where [slide] is
    followed by a digit; the result is capture group 1, or [None] for a
    null match. *)
Fixpoint match_slide_digits (s : string) : option string :=
  let here :=
    match strip_prefix "slide" s with
    | Some rest =>
        let (ds, _) := span_digits rest in
        if String.eqb ds EmptyString then None else Some ds
    | None => None
    end in
  match here with
  | Some ds => Some ds
  | None =>
      match s with
      | EmptyString => None
      | String _ s' => match_slide_digits s'
      end
  end.

(* ================================================================= *)
(** ** Numbers: parseInt on a digit run *)

Definition digit_value (c : ascii) : N := N.of_nat (nat_of_ascii c - 48).

(** The integer a run of decimal digits denotes. *)
Definition decimal (ds : string) : N :=
  fold_left (fun acc c => (10 * acc + digit_value c)%N) (list_ascii_of_string ds) 0%N.

(** An integer rounded to 53 significant bits, ties to even: the double
    nearest to it when the exponent range is unbounded. *)
Definition round53 (n : N) : N :=
  let e := N.log2 n in
  if (e <? 53)%N then n
  else
    let sh := (e - 52)%N in
    let q := N.shiftr n sh in
    let r := N.land n (N.ones sh) in
    let half := N.shiftl 1 (sh - 1) in
    let up := (half <? r)%N || ((r =? half)%N && N.odd q) in
    N.shiftl (if up then q + 1 else q)%N sh.

(** Stands for [Infinity]: every finite double is below it. *)
Definition infinity : N := (2 ^ 1024)%N.

(** The Number [parseInt] returns for a run of digits: the nearest double,
    [Infinity] on overflow. *)
Definition parseInt (ds : string) : N := N.min (round53 (decimal ds)) infinity.

(** [parseInt(a.match(/slide(\d+)/)[1])]; indexing a null match throws. *)
Definition slideNumber (a : string) : Result N :=
  match match_slide_digits a with
  | None => Throw TypeError
  | Some ds => Ok (parseInt ds)
  end.

(** The comparator handed to [sort].  [sort] looks only at the sign of
    what it returns; the difference of two doubles has the sign of their
    exact difference, and [Infinity - Infinity], a NaN, counts as 0. *)
Definition compareFn (a b : string) : Result Z :=
  numA <- slideNumber a ;;
  numB <- slideNumber b ;;
  Ok (Z.of_N numA - Z.of_N numB)%Z.

(* ================================================================= *)
(** ** Array.prototype.sort with a comparator that may throw *)

Section Sort.
Context {A : Type} (cmp : A -> A -> Result Z).

(** [x] goes before the first element it does not exceed. *)
Fixpoint insert (x : A) (l : list A) : Result (list A) :=
  match l with
  | [] => Ok [x]
  | y :: l' =>
      c <- cmp x y ;;
      if (c <=? 0)%Z then Ok (x :: y :: l')
      else (r <- insert x l' ;; Ok (y :: r))
  end.

(** A stable sort; an array of one element is returned without a call
    of the comparator, a longer one has every element compared. *)
Fixpoint sort (l : list A) : Result (list A) :=
  match l with
  | [] => Ok []
  | x :: l' => s <- sort l' ;; insert x s
  end.
End Sort.

(* ================================================================= *)
(** ** The transition catalog *)

(** The double-quote character, and a value between double quotes. *)
Definition dq : string := String (ascii_of_nat 34) EmptyString.

Definition quoted (v : string) : string := dq ++ v ++ dq.

Definition morph_xml : string :=
  "<mc:AlternateContent xmlns:mc="
  ++ quoted "http://schemas.openxmlformats.org/markup-compatibility/2006"
  ++ "><mc:Choice Requires=" ++ quoted "p159"
  ++ "><p:transition spd=" ++ quoted "slow"
  ++ " xmlns:p159="
  ++ quoted "http://schemas.microsoft.com/office/powerpoint/2015/09/main"
  ++ "><p159:morph option=" ++ quoted "byObject"
  ++ "/></p:transition></mc:Choice><mc:Fallback><p:transition spd="
  ++ quoted "slow"
  ++ "><p:fade/></p:transition></mc:Fallback></mc:AlternateContent>".

Definition push_xml : string :=
  "<p:transition spd=" ++ quoted "med" ++ "><p:push dir=" ++ quoted "l"
  ++ "/></p:transition>".

Definition cover_xml : string :=
  "<p:transition spd=" ++ quoted "med" ++ "><p:cover dir=" ++ quoted "l"
  ++ "/></p:transition>".

Definition fade_xml : string :=
  "<p:transition spd=" ++ quoted "slow" ++ "><p:fade/></p:transition>".

Definition wipe_xml : string :=
  "<p:transition spd=" ++ quoted "med" ++ "><p:wipe dir=" ++ quoted "d"
  ++ "/></p:transition>".

(** The object literal [TRANSITIONS], its own properties in source order. *)
Definition TRANSITIONS : list (string * string) :=
  [ ("morph", morph_xml); ("push", push_xml); ("cover", cover_xml);
    ("fade", fade_xml); ("wipe", wipe_xml) ].

Definition TRANSITION_SEQUENCE : list string := [ "morph"; "push" ].

(** [obj[key]] on an object of string properties; [None] is [undefined].
    An [undefined] key reads the property named undefined. *)
Fixpoint get_property (obj : list (string * string)) (key : string) : option string :=
  match obj with
  | [] => None
  | (k, v) :: obj' => if String.eqb k key then Some v else get_property obj' key
  end.

Definition property_of (obj : list (string * string)) (key : option string) : option string :=
  match key with
  | Some k => get_property obj k
  | None => get_property obj "undefined"
  end.

(* ================================================================= *)
(** ** The archive in memory *)

(** What an entry holds: text that [async('string')] resolves to, or data
    whose decoding rejects. *)
Inductive ZipData : Type :=
| Text (s : string)
| Undecodable.

(** Modelled from the spec: the Archive Accessor (the JSZip object, third
    party code that is not part of the repository).  A package maps entry
    paths to contents; the paths are enumerated in the order of the list;
    [file_get] reads an entry, [file_set] overwrites the content of an
    entry and keeps its path and position. *)
Definition JSZip : Type := list (string * ZipData).

(** The paths [zip.forEach] hands to its callback, in order.  (A JS
    object lists keys that look like array indices first; no slide path
    is one, and the other keys come in the order of the list.) *)
Definition paths (zip : JSZip) : list string := map fst zip.

(** [zip.file(name)]: the entry, or [None] for null. *)
Fixpoint file_get (zip : JSZip) (name : string) : option ZipData :=
  match zip with
  | [] => None
  | (k, d) :: zip' => if String.eqb k name then Some d else file_get zip' name
  end.

(** [zip.file(name, text)].  (The library also makes an entry for each
    parent folder of [name] that the archive lacks; these folder entries
    are left out here: the path of a folder is no slide path.) *)
Fixpoint file_set (zip : JSZip) (name : string) (text : string) : JSZip :=
  match zip with
  | [] => [ (name, Text text) ]
  | (k, d) :: zip' =>
      if String.eqb k name then (k, Text text) :: zip'
      else (k, d) :: file_set zip' name text
  end.

(** [entry.async('string')] on what [zip.file(name)] returned. *)
Definition async_string (entry : option ZipData) : Result string :=
  match entry with
  | None => Throw TypeError
  | Some (Text s) => Ok s
  | Some Undecodable => Throw ZipError
  end.

(** Modelled from the spec: [JSZip.loadAsync] and [zip.generateAsync] of
    the archive library, over any type of blobs; [Throw] is a rejected
    promise.  [generateAsync] is always called with the same options
    (DEFLATE, level 6), which are left out. *)
Class JSZipLib (Blob : Type) : Type := {
  loadAsync : Blob -> Result JSZip;
  generateAsync : JSZip -> Result Blob
}.

(* ================================================================= *)
(** ** applyTransitions *)

(** Lines 52-66: the slide paths, filtered and sorted. *)
Definition findSlideFiles (zip : JSZip) : Result (list string) :=
  sort compareFn (filter test_slide_path (paths zip)).

(** Lines 72-81: one turn of the loop, for index [i]. *)
Definition injectSlide (slideFiles : list string) (i : nat) (zip : JSZip) : Result JSZip :=
  path <- match nth_error slideFiles i with
          | Some p => Ok p
          | None => Throw TypeError
          end ;;
  slideXml <- async_string (file_get zip path) ;;
  let transType := nth_error TRANSITION_SEQUENCE (i mod length TRANSITION_SEQUENCE) in
  let transXml := property_of TRANSITIONS transType in
  if (indexOf slideXml "<p:transition" =? -1)%Z
  then Ok (file_set zip path (replace slideXml "</p:sld>" (js_plus transXml "</p:sld>")))
  else Ok zip.

(** Lines 71-82: [for (var i = ...; i < slideFiles.length; i++)], with [n]
    turns left. *)
Fixpoint for_loop (slideFiles : list string) (n i : nat) (zip : JSZip) : Result JSZip :=
  match n with
  | O => Ok zip
  | S n' => zip' <- injectSlide slideFiles i zip ;; for_loop slideFiles n' (S i) zip'
  end.

(** Lines 52-82: what happens to the package between load and generate. *)
Definition injectTransitions (zip : JSZip) : Result JSZip :=
  slideFiles <- findSlideFiles zip ;;
  for_loop slideFiles (length slideFiles - 1) 1 zip.

(** Lines 51-93: the body of the [try]. *)
Definition try_body {Blob : Type} `{JSZipLib Blob} (pptxBlob : Blob) : Result Blob :=
  zip <- loadAsync pptxBlob ;;
  zip' <- injectTransitions zip ;;
  generateAsync zip'.

(** How lines 46-48 went: the global JSZip was there; or [loadScript]
    resolved, with JSZip defined afterwards or not; or it rejected. *)
Inductive Startup : Type :=
| JSZipDefined
| ScriptLoaded (defines_JSZip : bool)
| ScriptFailed.

(** How the promise of [applyTransitions] settles. *)
Inductive Outcome (Blob : Type) : Type :=
| Resolved (blob : Blob)
| Rejected.

Arguments Resolved {Blob} blob.
Arguments Rejected {Blob}.

(** Lines 44-100.  The [await] of line 47 stands outside the [try]: when
    [loadScript] rejects, so does [applyTransitions].  Inside the [try],
    naming a JSZip that is still undefined throws; whatever is thrown
    there, the [catch] returns [pptxBlob]. *)
Definition applyTransitions {Blob : Type} `{JSZipLib Blob}
    (st : Startup) (pptxBlob : Blob) : Outcome Blob :=
  match st with
  | ScriptFailed => Rejected
  | _ =>
      let tried :=
        match st with
        | ScriptLoaded false => Throw ReferenceError
        | _ => try_body pptxBlob
        end in
      match tried with
      | Ok modifiedBlob => Resolved modifiedBlob
      | Throw _ => Resolved pptxBlob
      end
  end.

(* ================================================================= *)
(** ** Vocabulary of the statements *)

(** The marker of the idempotence guard and the closing root tag. *)
Definition marker : string := "<p:transition".
Definition closing : string := "</p:sld>".

(** The catalog entry the turn for index [i] looks up. *)
Definition transXml_at (i : nat) : option string :=
  property_of TRANSITIONS
    (nth_error TRANSITION_SEQUENCE (i mod length TRANSITION_SEQUENCE)).

(** The text the turn for index [i] leaves in an entry that held
    [slideXml]: lines 77-79 as a function of the text alone. *)
Definition turn_text (i : nat) (slideXml : string) : string :=
  if (indexOf slideXml marker =? -1)%Z
  then replace slideXml closing (js_plus (transXml_at i) closing)
  else slideXml.

(** [after] is [before] with [xml] put in front of the first closing
    root tag. *)
Definition inserted_before_closing (xml before after : string) : Prop :=
  exists pre post,
    before = pre ++ closing ++ post /\
    after = pre ++ xml ++ closing ++ post /\
    indexOf before closing = Z.of_nat (String.length pre).

(** A string of decimal digits only. *)
Fixpoint digits_only (s : string) : bool :=
  match s with
  | EmptyString => true
  | String c s' => is_digit c && digits_only s'
  end.

(** The naming convention of slide parts, in the spec's words: the fixed
    prefix, the token slide, one or more digits, the extension. *)
Definition slide_named (path : string) : Prop :=
  exists ds, ds <> EmptyString /\ digits_only ds = true /\
             path = "ppt/slides/slide" ++ ds ++ ".xml".

(** The ordinal in a slide path: the number its digit run denotes. *)
Definition slide_ordinal (path : string) : N :=
  match strip_prefix "ppt/slides/slide" path with
  | Some rest => decimal (fst (span_digits rest))
  | None => 0%N
  end.

(** The number the comparator parses out of a path, which is what the
    sort takes for its ordinal (0 where the comparator throws). *)
Definition number_of (path : string) : N :=
  match slideNumber path with
  | Ok n => n
  | Throw _ => 0%N
  end.

(** The comparator's match succeeds on [path]. *)
Definition numbered (path : string) : Prop := exists n, slideNumber path = Ok n.

(** The order the comparator sorts by. *)
Definition le_number (a b : string) : Prop := (number_of a <= number_of b)%N.

(** The slide paths of a package, as [forEach] meets them. *)
Definition slide_entries (zip : JSZip) : list string :=
  filter test_slide_path (paths zip).

(** Every entry from position 1 on can be read as text. *)
Definition later_slides_readable (zip : JSZip) (slideFiles : list string) : Prop :=
  forall j p, 1 <= j -> nth_error slideFiles j = Some p ->
    exists x, file_get zip p = Some (Text x).

(** Follows the spec's words (4.3, error handling, and 7, propagation
    policy), to be compared with [for_loop]: an exception raised in the
    turn for one slide is caught there, the slide is skipped, and the loop
    goes on with the next one. *)
Fixpoint for_loop_skipping (slideFiles : list string) (n i : nat) (zip : JSZip) : JSZip :=
  match n with
  | O => zip
  | S n' =>
      let zip' := match injectSlide slideFiles i zip with
                  | Ok z => z
                  | Throw _ => zip
                  end in
      for_loop_skipping slideFiles n' (S i) zip'
  end.

Definition injectTransitions_skipping (zip : JSZip) : Result JSZip :=
  slideFiles <- findSlideFiles zip ;;
  Ok (for_loop_skipping slideFiles (length slideFiles - 1) 1 zip).

Definition applyTransitions_skipping {Blob : Type} `{JSZipLib Blob}
    (pptxBlob : Blob) : Outcome Blob :=
  match (zip <- loadAsync pptxBlob ;;
         zip' <- injectTransitions_skipping zip ;;
         generateAsync zip') with
  | Ok modifiedBlob => Resolved modifiedBlob
  | Throw _ => Resolved pptxBlob
  end.

(** The error policy of the spec, as a property of one input. *)
Definition slide_errors_stay_local {Blob : Type} `{JSZipLib Blob} (pptxBlob : Blob) : Prop :=
  applyTransitions JSZipDefined pptxBlob = applyTransitions_skipping pptxBlob.

(** The scenario of the spec for a deck of three fresh slides: the first
    is unmodified, the second gets the rich effect (morph, with its
    fallback), the third the safe one (push). *)
Definition scenario_rich_then_safe (zip : JSZip) : Prop :=
  forall p1 p2 p3 x2 x3,
    findSlideFiles zip = Ok [p1; p2; p3] ->
    file_get zip p2 = Some (Text x2) ->
    file_get zip p3 = Some (Text x3) ->
    ~ occurs marker x2 -> occurs closing x2 ->
    ~ occurs marker x3 -> occurs closing x3 ->
    exists zip',
      injectTransitions zip = Ok zip' /\
      file_get zip' p1 = file_get zip p1 /\
      (exists y2, file_get zip' p2 = Some (Text y2) /\
                  inserted_before_closing morph_xml x2 y2) /\
      (exists y3, file_get zip' p3 = Some (Text y3) /\
                  inserted_before_closing push_xml x3 y3).

(** No string occurs twice in the list. *)
Fixpoint distinctb (l : list string) : bool :=
  match l with
  | [] => true
  | x :: l' => negb (existsb (String.eqb x) l') && distinctb l'
  end.

(* ================================================================= *)
(** ** Sample data *)

(** An archive library over blobs that are either a list of entries or
    not an archive at all. *)
Inductive SampleBlob : Type :=
| Archive (entries : JSZip)
| NotAnArchive.

#[export] Instance SampleLib : JSZipLib SampleBlob := {
  loadAsync b := match b with
                 | Archive z => Ok z
                 | NotAnArchive => Throw ZipError
                 end;
  generateAsync z := Ok (Archive z)
}.

Definition slide1 : string := "ppt/slides/slide1.xml".
Definition slide2 : string := "ppt/slides/slide2.xml".
Definition slide3 : string := "ppt/slides/slide3.xml".

Definition sld (body : string) : string := "<p:sld><p:cSld>" ++ body ++ "</p:cSld></p:sld>".

(** Three fresh slides among other parts, listed out of order. *)
Definition deck3 : JSZip :=
  [ ("[Content_Types].xml", Text "<Types/>");
    (slide3, Text (sld "three"));
    ("ppt/presentation.xml", Text "<p:presentation/>");
    (slide1, Text (sld "one"));
    ("ppt/slideLayouts/slideLayout1.xml", Text "<p:sldLayout/>");
    (slide2, Text (sld "two")) ].

(** What the loop makes of [deck3]: push in slide 2, morph in slide 3. *)
Definition deck3_out : JSZip :=
  [ ("[Content_Types].xml", Text "<Types/>");
    (slide3, Text ("<p:sld><p:cSld>three</p:cSld>" ++ morph_xml ++ "</p:sld>"));
    ("ppt/presentation.xml", Text "<p:presentation/>");
    (slide1, Text (sld "one"));
    ("ppt/slideLayouts/slideLayout1.xml", Text "<p:sldLayout/>");
    (slide2, Text ("<p:sld><p:cSld>two</p:cSld>" ++ push_xml ++ "</p:sld>")) ].

(** The same deck with a second slide that cannot be decoded. *)
Definition deck3_unreadable : JSZip :=
  [ ("[Content_Types].xml", Text "<Types/>");
    (slide1, Text (sld "one"));
    (slide2, Undecodable);
    (slide3, Text (sld "three")) ].

(** What the spec's error policy would make of it: slide 2 skipped,
    slide 3 given its transition. *)
Definition deck3_unreadable_skipped : JSZip :=
  [ ("[Content_Types].xml", Text "<Types/>");
    (slide1, Text (sld "one"));
    (slide2, Undecodable);
    (slide3, Text ("<p:sld><p:cSld>three</p:cSld>" ++ morph_xml ++ "</p:sld>")) ].

(** A deck whose second slide has lost its closing tag. *)
Definition deck3_unclosed : JSZip :=
  [ (slide1, Text (sld "one"));
    (slide2, Text "<p:sld><p:cSld>two</p:cSld>");
    (slide3, Text (sld "three")) ].

(** Eleven slide paths in ordinal order, and a package that lists them in
    the order of their names. *)
Definition deck11 : list string :=
  [ "ppt/slides/slide1.xml"; "ppt/slides/slide2.xml"; "ppt/slides/slide3.xml";
    "ppt/slides/slide4.xml"; "ppt/slides/slide5.xml"; "ppt/slides/slide6.xml";
    "ppt/slides/slide7.xml"; "ppt/slides/slide8.xml"; "ppt/slides/slide9.xml";
    "ppt/slides/slide10.xml"; "ppt/slides/slide11.xml" ].

Definition deck11_lexical : JSZip :=
  map (fun p => (p, Text (sld p)))
    [ "ppt/slides/slide1.xml"; "ppt/slides/slide10.xml"; "ppt/slides/slide11.xml";
      "ppt/slides/slide2.xml"; "ppt/slides/slide3.xml"; "ppt/slides/slide4.xml";
      "ppt/slides/slide5.xml"; "ppt/slides/slide6.xml"; "ppt/slides/slide7.xml";
      "ppt/slides/slide8.xml"; "ppt/slides/slide9.xml" ].

(* ================================================================= *)
(** ** The run as a map over the entries *)

(** The first position of [p] in [l]. *)
Fixpoint position (p : string) (l : list string) : option nat :=
  match l with
  | [] => None
  | q :: l' =>
      if String.eqb q p then Some 0
      else match position p l' with
           | Some j => Some (S j)
           | None => None
           end
  end.

(** What the loop makes of one entry, given the sorted slide list: a text
    entry at a position from 1 on gets [turn_text] of that position, every
    other entry stays. *)
Definition transitioned (slideFiles : list string) (entry : string * ZipData)
    : string * ZipData :=
  match entry with
  | (k, Text x) =>
      match position k slideFiles with
      | Some (S j) => (k, Text (turn_text (S j) x))
      | _ => entry
      end
  | _ => entry
  end.

(* ================================================================= *)
(** ** loadScript and the start of applyTransitions *)

(** The URL of line 47. *)
Definition JSZIP_URL : string :=
  "https://cdn.jsdelivr.net/npm/jszip@3.10.1/dist/jszip.min.js".

(** What [loadScript] and lines 46-48 see of the page: whether the global
    JSZip is defined, and the src attributes of the script elements of the
    document. *)
Record ScriptEnv : Type := mkScriptEnv {
  JSZip_defined : bool;
  script_srcs : list string
}.

(** What the browser fires on a script element put into the document:
    load, after the script ran (and defined the global JSZip or did not),
    or error. *)
Inductive ScriptEvent : Type :=
| ScriptLoad (defines_JSZip : bool)
| ScriptError.

Inductive Settled : Type :=
| Fulfilled
| Refused.

(** A src the selector of line 121 can carry between its quotes as it
    is: no quote, no backslash, no line break. *)
Definition selector_plain (src : string) : bool :=
  forallb (fun c => negb (existsb (Nat.eqb (nat_of_ascii c)) [34; 92; 10; 12; 13]))
          (list_ascii_of_string src).

(** [document.querySelector('script[src=...]')], as a truth value, for a
    plain [src]. *)
Definition has_script (src : string) (env : ScriptEnv) : bool :=
  existsb (String.eqb src) (script_srcs env).

(** Lines 119-131, for a document that has a head and a browser that
    fires load or error on the new element.  With a script element of
    that src in the document the promise resolves at once; otherwise a
    new element is appended to the head and the promise settles with the
    event the browser fires, the script having run before a load event. *)
Definition loadScript (src : string) (ev : ScriptEvent) (env : ScriptEnv)
    : ScriptEnv * Settled :=
  if has_script src env then (env, Fulfilled)
  else
    let appended := (script_srcs env ++ [src])%list in
    match ev with
    | ScriptLoad defines =>
        (mkScriptEnv (JSZip_defined env || defines) appended, Fulfilled)
    | ScriptError =>
        (mkScriptEnv (JSZip_defined env) appended, Refused)
    end.

(** Lines 46-48: how a call of [applyTransitions] starts on a page. *)
Definition startup (ev : ScriptEvent) (env : ScriptEnv) : ScriptEnv * Startup :=
  if JSZip_defined env then (env, JSZipDefined)
  else
    match loadScript JSZIP_URL ev env with
    | (env', Fulfilled) => (env', ScriptLoaded (JSZip_defined env'))
    | (env', Refused) => (env', ScriptFailed)
    end.

(** [applyTransitions] on a page: the page it leaves and how its promise
    settles. *)
Definition applyTransitions_on {Blob : Type} `{JSZipLib Blob}
    (ev : ScriptEvent) (env : ScriptEnv) (pptxBlob : Blob)
    : ScriptEnv * Outcome Blob :=
  let (env', st) := startup ev env in
  (env', applyTransitions st pptxBlob).

(** Calls one after the other, each with the event the browser would
    fire if that call came to fetch the script; the page at the end. *)
Fixpoint page_after {Blob : Type} `{JSZipLib Blob}
    (calls : list (ScriptEvent * Blob)) (env : ScriptEnv) : ScriptEnv :=
  match calls with
  | [] => env
  | (ev, blob) :: calls' => page_after calls' (fst (applyTransitions_on ev env blob))
  end.

(* ================================================================= *)
(** ** downloadBlob *)

(** What [downloadBlob] touches: the children of [document.body] as node
    numbers ([None] while the document has no body), the live object
    URLs with the blobs they stand for, the numbers the next new node and
    the next new URL get, and the downloads started so far (file name and
    content). *)
Record DownloadPage (Blob : Type) : Type := mkDownloadPage {
  body_children : option (list nat);
  object_urls : list (nat * Blob);
  next_node : nat;
  next_url : nat;
  downloads : list (string * Blob)
}.

Arguments mkDownloadPage {Blob}.
Arguments body_children {Blob}.
Arguments object_urls {Blob}.
Arguments next_node {Blob}.
Arguments next_url {Blob}.
Arguments downloads {Blob}.

(** The blob a live object URL stands for. *)
Fixpoint resolve_url {Blob : Type} (url : nat) (urls : list (nat * Blob)) : option Blob :=
  match urls with
  | [] => None
  | (u, b) :: urls' => if Nat.eqb u url then Some b else resolve_url url urls'
  end.

(** [URL.revokeObjectURL(url)]. *)
Definition revoke_url {Blob : Type} (url : nat) (urls : list (nat * Blob)) : list (nat * Blob) :=
  filter (fun e => negb (Nat.eqb (fst e) url)) urls.

(** Lines 105-114.  The object URL and the anchor are made first; with
    no body, [document.body.appendChild] throws there.  Otherwise the
    anchor is appended, clicked (a click on an anchor with a download
    attribute starts a download of what its href stands for), removed,
    and the URL revoked. *)
Definition downloadBlob {Blob : Type} (blob : Blob) (filename : string)
    (page : DownloadPage Blob) : DownloadPage Blob * Result unit :=
  let url := next_url page in
  let urls := (object_urls page ++ [(url, blob)])%list in
  let a := next_node page in
  match body_children page with
  | None =>
      (mkDownloadPage None urls (S a) (S url) (downloads page), Throw TypeError)
  | Some children =>
      let appended := (children ++ [a])%list in
      let started :=
        match resolve_url url urls with
        | Some content => (downloads page ++ [(filename, content)])%list
        | None => downloads page
        end in
      let removed := remove Nat.eq_dec a appended in
      (mkDownloadPage (Some removed) (revoke_url url urls) (S a) (S url) started,
       Ok tt)
  end.

(** Every node of the body and every live URL has a number already given
    out. *)
Definition page_consistent {Blob : Type} (page : DownloadPage Blob) : Prop :=
  (forall children, body_children page = Some children ->
                    Forall (fun n => n < next_node page) children) /\
  Forall (fun e => fst e < next_url page) (object_urls page).

(** The slides are processed in strictly ascending order of the ordinals
    in their names. *)
Definition processed_in_ordinal_order (zip : JSZip) : Prop :=
  exists slideFiles,
    findSlideFiles zip = Ok slideFiles /\
    StronglySorted (fun a b => (slide_ordinal a < slide_ordinal b)%N) slideFiles.

(** Two slides whose ordinals, 2^53 + 1 and 2^53, differ and parse to
    the same Number; the archive lists the greater one first. *)
Definition deck2_unsafe : JSZip :=
  [ ("ppt/slides/slide9007199254740993.xml", Text (sld "later"));
    ("ppt/slides/slide9007199254740992.xml", Text (sld "earlier")) ].

(** A deck whose only slide cannot be decoded. *)
Definition deck1_unreadable : JSZip :=
  [ ("[Content_Types].xml", Text "<Types/>");
    ("ppt/slides/slide1.xml", Undecodable) ].

(** A deck whose second slide already has a transition of its own. *)
Definition deck3_marked : JSZip :=
  [ (slide1, Text (sld "one"));
    (slide2, Text ("<p:sld><p:cSld>two</p:cSld>" ++ fade_xml ++ "</p:sld>"));
    (slide3, Text (sld "three")) ].

(** A page without JSZip and without script elements, and a page with a
    body of two nodes and one live URL. *)
Definition bare_page : ScriptEnv := mkScriptEnv false [].

Definition sample_page : DownloadPage SampleBlob :=
  mkDownloadPage (Some [0; 1]) [(0, NotAnArchive)] 2 1 [].

(* ================================================================= *)
(** * Properties *)

(** ** Strings *)

Lemma append_assoc (a b c : string) : (a ++ b) ++ c = a ++ b ++ c.
Proof. induction a as [|x a IH]; simpl; [reflexivity | now rewrite IH]. Qed.

Lemma append_empty_r (a : string) : a ++ EmptyString = a.
Proof. induction a as [|x a IH]; simpl; [reflexivity | now rewrite IH]. Qed.

Lemma strip_prefix_app (p r : string) : strip_prefix p (p ++ r) = Some r.
Proof.
  induction p as [|a p IH]; simpl; [reflexivity|].
  now rewrite Ascii.eqb_refl.
Qed.

Lemma strip_prefix_Some (p s r : string) :
  strip_prefix p s = Some r -> s = p ++ r.
Proof.
  revert s; induction p as [|a p IH]; simpl; intros s H.
  - now inversion H.
  - destruct s as [|b s]; [discriminate|].
    destruct (Ascii.eqb_spec a b) as [->|]; [|discriminate].
    now rewrite (IH _ H).
Qed.

Lemma occurs_here (pat rest : string) : occurs pat (pat ++ rest).
Proof. exists EmptyString, rest; reflexivity. Qed.

Lemma occurs_later (pat s : string) (c : ascii) :
  occurs pat s -> occurs pat (String c s).
Proof. intros (pre & post & ->). exists (String c pre), post; reflexivity. Qed.

Lemma occurs_app_r (pat a b : string) : occurs pat b -> occurs pat (a ++ b).
Proof.
  intros H; induction a as [|c a IH]; simpl; [assumption|].
  now apply occurs_later.
Qed.

Lemma occurs_app_l (pat a b : string) : occurs pat a -> occurs pat (a ++ b).
Proof.
  intros (pre & post & ->). exists pre, (post ++ b).
  now rewrite !append_assoc.
Qed.

(** An occurrence in a non-empty string starts at its head or lies in
    its tail. *)
Lemma occurs_inv (pat s : string) (c : ascii) :
  occurs pat (String c s) ->
  (exists r, strip_prefix pat (String c s) = Some r) \/ occurs pat s.
Proof.
  intros (pre & post & E). destruct pre as [|d pre]; simpl in E.
  - left; exists post. rewrite E. apply strip_prefix_app.
  - right. inversion E; subst. exists pre, post; reflexivity.
Qed.

Lemma occurs_empty (pat : string) : occurs pat EmptyString -> pat = EmptyString.
Proof.
  intros (pre & post & E). destruct pre; simpl in E; [|discriminate].
  destruct pat; [reflexivity | discriminate].
Qed.

Lemma strip_prefix_None_absent (pat s : string) :
  strip_prefix pat s = None ->
  match s with EmptyString => True | String _ s' => ~ occurs pat s' end ->
  ~ occurs pat s.
Proof.
  intros Hp Ht Ho. destruct s as [|c s].
  - apply occurs_empty in Ho; subst. discriminate.
  - destruct (occurs_inv _ _ _ Ho) as [(r & Hr)|Hs]; [congruence | auto].
Qed.

(** [indexOf_from] answers -1 or a position from [pos] on. *)
Lemma indexOf_from_range (needle s : string) (pos : Z) :
  (0 <= pos)%Z ->
  indexOf_from needle s pos = (-1)%Z \/ (pos <= indexOf_from needle s pos)%Z.
Proof.
  revert pos; induction s as [|c s IH]; intros pos Hpos; simpl.
  - destruct (strip_prefix needle EmptyString); [right; lia | now left].
  - destruct (strip_prefix needle (String c s)); [right; lia|].
    destruct (IH (pos + 1)%Z) as [H|H]; [lia | now left | right; lia].
Qed.

Lemma indexOf_from_absent (needle s : string) (pos : Z) :
  (0 <= pos)%Z ->
  (indexOf_from needle s pos = (-1)%Z <-> ~ occurs needle s).
Proof.
  revert pos; induction s as [|c s IH]; intros pos Hpos; simpl.
  - destruct (strip_prefix needle EmptyString) eqn:E.
    + split; [lia|]. intros H; exfalso; apply H.
      apply strip_prefix_Some in E. rewrite E. apply occurs_here.
    + split; [|reflexivity]. intros _. now apply strip_prefix_None_absent.
  - destruct (strip_prefix needle (String c s)) eqn:E.
    + split; [lia|]. intros H; exfalso; apply H.
      apply strip_prefix_Some in E. rewrite E. apply occurs_here.
    + rewrite (IH (pos + 1)%Z) by lia. split.
      * intros H. now apply strip_prefix_None_absent.
      * intros H Hs. apply H. now apply occurs_later.
Qed.

(** The guard [indexOf(...) === -1] holds exactly when the needle is
    absent. *)
Lemma indexOf_absent (s needle : string) :
  (indexOf s needle =? -1)%Z = true <-> ~ occurs needle s.
Proof.
  unfold indexOf. rewrite Z.eqb_eq. apply indexOf_from_absent. lia.
Qed.

Lemma indexOf_present (s needle : string) :
  (indexOf s needle =? -1)%Z = false <-> occurs needle s.
Proof.
  destruct (indexOf s needle =? -1)%Z eqn:E.
  - apply indexOf_absent in E. split; [discriminate | contradiction].
  - split; [|reflexivity]. intros _.
    unfold indexOf in E. apply Z.eqb_neq in E.
    revert E. generalize 0%Z at 1 as pos.
    induction s as [|c s IH]; intros pos; simpl.
    + destruct (strip_prefix needle EmptyString) eqn:P; [|congruence].
      intros _. apply strip_prefix_Some in P. rewrite P. apply occurs_here.
    + destruct (strip_prefix needle (String c s)) eqn:P.
      * intros _. apply strip_prefix_Some in P. rewrite P. apply occurs_here.
      * intros H. apply occurs_later. now apply (IH (pos + 1)%Z).
Qed.

Lemma replace_absent (s pat repl : string) :
  ~ occurs pat s -> replace s pat repl = s.
Proof.
  induction s as [|c s IH]; intros H; simpl.
  - destruct (strip_prefix pat EmptyString) eqn:E; [|reflexivity].
    exfalso; apply H. apply strip_prefix_Some in E. rewrite E. apply occurs_here.
  - destruct (strip_prefix pat (String c s)) eqn:E.
    + exfalso; apply H. apply strip_prefix_Some in E. rewrite E. apply occurs_here.
    + rewrite IH; [reflexivity|]. intros Hs; apply H. now apply occurs_later.
Qed.

Lemma indexOf_from_shift (needle s : string) (pos : Z) :
  occurs needle s ->
  indexOf_from needle s pos = (pos + indexOf_from needle s 0)%Z.
Proof.
  revert pos; induction s as [|c s IH]; intros pos Ho; simpl.
  - apply occurs_empty in Ho; subst; simpl. lia.
  - destruct (strip_prefix needle (String c s)) eqn:E; [lia|].
    destruct (occurs_inv _ _ _ Ho) as [(r & Hr)|Hs]; [congruence|].
    rewrite (IH (pos + 1)%Z Hs), (IH 1%Z Hs). lia.
Qed.

(** [replace] rewrites the first occurrence, the one [indexOf] finds. *)
Lemma replace_first_occurrence (s pat repl : string) :
  occurs pat s ->
  exists pre post,
    s = pre ++ pat ++ post /\
    replace s pat repl = pre ++ repl ++ post /\
    indexOf s pat = Z.of_nat (String.length pre).
Proof.
  unfold indexOf. induction s as [|c s IH]; intros Ho.
  - apply occurs_empty in Ho; subst. exists EmptyString, EmptyString.
    simpl. now rewrite append_empty_r.
  - simpl. destruct (strip_prefix pat (String c s)) eqn:E.
    + exists EmptyString, s0. apply strip_prefix_Some in E. now rewrite E.
    + destruct (occurs_inv _ _ _ Ho) as [(r & Hr)|Hs]; [congruence|].
      destruct (IH Hs) as (pre & post & E1 & E2 & E3).
      exists (String c pre), post. simpl. rewrite <- E1, E2.
      repeat split. rewrite (indexOf_from_shift _ _ 1%Z Hs), E3. lia.
Qed.

(** ** The regular expressions *)

Lemma span_digits_spec (s ds tail : string) :
  span_digits s = (ds, tail) -> s = ds ++ tail /\ digits_only ds = true.
Proof.
  revert ds tail; induction s as [|c s IH]; simpl; intros ds tail H.
  - inversion H; subst. now split.
  - destruct (is_digit c) eqn:D.
    + destruct (span_digits s) as [ds' rest] eqn:E. inversion H; subst.
      destruct (IH _ _ eq_refl) as [-> Hd]. simpl. now rewrite D, Hd.
    + inversion H; subst. now split.
Qed.

Lemma span_digits_app (ds tail : string) :
  digits_only ds = true ->
  match tail with EmptyString => True | String c _ => is_digit c = false end ->
  span_digits (ds ++ tail) = (ds, tail).
Proof.
  intros Hd Ht. induction ds as [|c ds IH]; simpl in *.
  - destruct tail as [|c tail]; simpl; [reflexivity | now rewrite Ht].
  - apply andb_true_iff in Hd as [Hc Hd]. now rewrite Hc, (IH Hd).
Qed.

(** The test of the filter accepts exactly the paths of the naming
    convention. *)
Lemma test_slide_path_iff (path : string) :
  test_slide_path path = true <-> slide_named path.
Proof.
  unfold test_slide_path, slide_named. split.
  - destruct (strip_prefix "ppt/slides/slide" path) as [rest|] eqn:P; [|discriminate].
    destruct (span_digits rest) as [ds tail] eqn:S. intros H.
    apply andb_true_iff in H as [Hne Hx].
    apply String.eqb_eq in Hx; subst tail.
    apply strip_prefix_Some in P. apply span_digits_spec in S as [-> Hd].
    exists ds. repeat split; try assumption.
    intros ->. discriminate.
  - intros (ds & Hne & Hd & ->).
    rewrite strip_prefix_app, (span_digits_app ds ".xml" Hd eq_refl).
    destruct ds; [contradiction | reflexivity].
Qed.

(** On a path of the naming convention the comparator's regular
    expression matches, and captures the digit run of the name. *)
Lemma match_slide_digits_named (ds : string) :
  ds <> EmptyString -> digits_only ds = true ->
  match_slide_digits ("ppt/slides/slide" ++ ds ++ ".xml") = Some ds.
Proof.
  intros Hne Hd. destruct ds as [|d ds]; [contradiction|].
  simpl in Hd. apply andb_true_iff in Hd as [Hc Hd].
  cbn. rewrite Hc, (span_digits_app ds ".xml" Hd eq_refl). reflexivity.
Qed.

Lemma slide_ordinal_named (ds : string) :
  digits_only ds = true ->
  slide_ordinal ("ppt/slides/slide" ++ ds ++ ".xml") = decimal ds.
Proof.
  intros Hd. unfold slide_ordinal.
  now rewrite strip_prefix_app, (span_digits_app ds ".xml" Hd eq_refl).
Qed.

(** ** Numbers *)

Lemma round53_exact (n : N) : (n < 2 ^ 53)%N -> round53 n = n.
Proof.
  intros H. unfold round53.
  destruct (N.eq_dec n 0) as [->|Hz]; [reflexivity|].
  assert (N.log2 n < 53)%N as L by (apply N.log2_lt_pow2; lia).
  apply N.ltb_lt in L. now rewrite L.
Qed.

Lemma parseInt_exact (ds : string) :
  (decimal ds < 2 ^ 53)%N -> parseInt ds = decimal ds.
Proof.
  intros H. unfold parseInt. rewrite (round53_exact _ H).
  apply N.min_l. unfold infinity.
  apply N.lt_le_incl, (N.lt_trans _ _ _ H).
  apply N.pow_lt_mono_r; lia.
Qed.

(** For a slide path whose ordinal is a safe integer, the number the
    comparator computes is the ordinal. *)
Lemma slideNumber_named (path : string) :
  test_slide_path path = true ->
  exists ds, ds <> EmptyString /\
             match_slide_digits path = Some ds /\
             slideNumber path = Ok (parseInt ds) /\
             slide_ordinal path = decimal ds.
Proof.
  intros H. apply test_slide_path_iff in H as (ds & Hne & Hd & ->).
  exists ds. unfold slideNumber.
  rewrite (match_slide_digits_named ds Hne Hd), (slide_ordinal_named ds Hd).
  auto.
Qed.

(** ** Sorting *)

Lemma StronglySorted_weaken {A : Type} (R R' : A -> A -> Prop) (l : list A) :
  (forall a b, In a l -> In b l -> R a b -> R' a b) ->
  StronglySorted R l -> StronglySorted R' l.
Proof.
  intros Himp H. induction H as [|a l Hl IH Ha]; constructor.
  - apply IH. intros x y Hx Hy. apply Himp; now right.
  - rewrite Forall_forall in *. intros b Hb.
    apply Himp; [now left | now right | now apply Ha].
Qed.

(** Weakly ascending keys without a repeated key ascend strictly. *)
Lemma StronglySorted_strict {A : Type} (key : A -> N) (l : list A) :
  StronglySorted (fun a b => (key a <= key b)%N) l ->
  NoDup (map key l) ->
  StronglySorted (fun a b => (key a < key b)%N) l.
Proof.
  intros H. induction H as [|a l Hl IH Ha]; intros Hn; constructor.
  - apply IH. now inversion Hn.
  - inversion Hn as [|? ? Hnotin _]; subst.
    rewrite Forall_forall in *. intros b Hb.
    assert (key a <> key b) by (intros E; apply Hnotin; rewrite E; now apply in_map).
    specialize (Ha b Hb). lia.
Qed.

(** A list has one strictly ascending arrangement at most. *)
Lemma sorted_arrangement_unique {A : Type} (key : A -> N) (l0 : list A) :
  StronglySorted (fun a b => (key a < key b)%N) l0 ->
  forall l, StronglySorted (fun a b => (key a <= key b)%N) l ->
            Permutation l l0 -> l = l0.
Proof.
  intros H0; induction H0 as [|a l0 Hs IH Ha]; intros l Hl Hp.
  - now apply Permutation_nil, Permutation_sym.
  - destruct l as [|x l]; [now apply Permutation_nil in Hp|].
    inversion Hl as [|? ? Hl' Hx]; subst.
    rewrite Forall_forall in Ha, Hx.
    assert (x = a) as ->.
    { assert (In x (a :: l0)) as [E|Hin] by (eapply Permutation_in; [exact Hp | now left]);
        [now symmetry|].
      assert (In a (x :: l)) as [E|Hin'] by
          (eapply Permutation_in; [apply Permutation_sym; exact Hp | now left]);
        [assumption|].
      specialize (Ha _ Hin). specialize (Hx _ Hin'). lia. }
    f_equal. apply IH; [assumption|]. now apply Permutation_cons_inv in Hp.
Qed.

Lemma compareFn_Ok (a b : string) (m n : N) :
  slideNumber a = Ok m -> slideNumber b = Ok n ->
  compareFn a b = Ok (Z.of_N (number_of a) - Z.of_N (number_of b))%Z.
Proof.
  intros Ha Hb. unfold compareFn, number_of. now rewrite Ha, Hb.
Qed.

Lemma insert_sorted (x : string) (l : list string) :
  numbered x -> Forall numbered l -> StronglySorted le_number l ->
  exists r, insert compareFn x l = Ok r /\
            Permutation r (x :: l) /\ StronglySorted le_number r.
Proof.
  intros [m Hx] Hall Hs. induction Hs as [|y l Hl IH Hy].
  - exists [x]. repeat split; auto. repeat constructor.
  - inversion Hall as [|? ? [n Hn] Hall']; subst. simpl.
    rewrite (compareFn_Ok _ _ _ _ Hx Hn). simpl.
    destruct (Z.leb_spec (Z.of_N (number_of x) - Z.of_N (number_of y)) 0) as [Hle|Hgt].
    + exists (x :: y :: l). repeat split; auto.
      constructor; [now constructor|].
      constructor; [unfold le_number; lia|].
      rewrite Forall_forall in *. intros b Hb. specialize (Hy b Hb).
      unfold le_number in *. lia.
    + destruct (IH Hall') as (r & -> & Hp & Hr). simpl.
      exists (y :: r). repeat split.
      * rewrite Hp. apply perm_swap.
      * constructor; [assumption|].
        apply (Permutation_Forall (Permutation_sym Hp)).
        constructor; [unfold le_number; lia | assumption].
Qed.

Lemma sort_sorted (l : list string) :
  Forall numbered l ->
  exists r, sort compareFn l = Ok r /\
            Permutation r l /\ StronglySorted le_number r.
Proof.
  induction l as [|x l IH]; intros Hall.
  - exists []. repeat split; auto. constructor.
  - inversion Hall as [|? ? Hx Hall']; subst.
    destruct (IH Hall') as (s & Hs & Hp & Hss). simpl. rewrite Hs. simpl.
    destruct (insert_sorted x s Hx) as (r & Hr & Hpr & Hsr); [|assumption|].
    + now apply (Permutation_Forall (Permutation_sym Hp)).
    + exists r. repeat split; [assumption| |assumption].
      rewrite Hpr. now constructor.
Qed.

Lemma slide_entries_numbered (zip : JSZip) : Forall numbered (slide_entries zip).
Proof.
  apply Forall_forall. intros p Hp. apply filter_In in Hp as [_ Hp].
  destruct (slideNumber_named p Hp) as (ds & _ & _ & H & _). now exists (parseInt ds).
Qed.

(** The slide list is always built: the comparator never throws on the
    filtered paths.  It is the filtered paths, reordered by number. *)
Lemma findSlideFiles_spec (zip : JSZip) :
  exists slideFiles,
    findSlideFiles zip = Ok slideFiles /\
    Permutation slideFiles (slide_entries zip) /\
    StronglySorted le_number slideFiles.
Proof. apply sort_sorted, slide_entries_numbered. Qed.

Lemma findSlideFiles_members (zip : JSZip) (slideFiles : list string) :
  findSlideFiles zip = Ok slideFiles ->
  Permutation slideFiles (slide_entries zip) /\
  StronglySorted le_number slideFiles /\
  Forall (fun p => test_slide_path p = true /\ In p (paths zip)) slideFiles.
Proof.
  intros H. destruct (findSlideFiles_spec zip) as (l & Hl & Hp & Hs).
  assert (l = slideFiles) by congruence; subst. repeat split; auto.
  apply Forall_forall. intros p Hin.
  apply (Permutation_in _ Hp), filter_In in Hin. tauto.
Qed.

Lemma findSlideFiles_NoDup (zip : JSZip) (slideFiles : list string) :
  NoDup (paths zip) -> findSlideFiles zip = Ok slideFiles -> NoDup slideFiles.
Proof.
  intros Hn H. apply findSlideFiles_members in H as (Hp & _).
  apply (Permutation_NoDup (Permutation_sym Hp)). now apply NoDup_filter.
Qed.

(** ** The package *)

Lemma file_get_set_same (zip : JSZip) (name text : string) :
  file_get (file_set zip name text) name = Some (Text text).
Proof.
  induction zip as [|[k d] zip IH]; simpl.
  - now rewrite String.eqb_refl.
  - destruct (String.eqb k name) eqn:E; simpl; now rewrite E.
Qed.

Lemma file_get_set_other (zip : JSZip) (name text other : string) :
  other <> name ->
  file_get (file_set zip name text) other = file_get zip other.
Proof.
  intros Hne. induction zip as [|[k d] zip IH]; simpl.
  - destruct (String.eqb_spec name other); [congruence | reflexivity].
  - destruct (String.eqb_spec k name) as [->|Hk]; simpl.
    + destruct (String.eqb_spec name other); [congruence | reflexivity].
    + now rewrite IH.
Qed.

Lemma file_get_In (zip : JSZip) (name : string) (d : ZipData) :
  file_get zip name = Some d -> In name (paths zip).
Proof.
  induction zip as [|[k e] zip IH]; simpl; [discriminate|].
  destruct (String.eqb_spec k name); [now left | right; auto].
Qed.

(** Writing an entry that exists keeps every path in its place. *)
Lemma paths_file_set (zip : JSZip) (name text : string) (d : ZipData) :
  file_get zip name = Some d -> paths (file_set zip name text) = paths zip.
Proof.
  induction zip as [|[k e] zip IH]; simpl; [discriminate|].
  destruct (String.eqb_spec k name); simpl; [reflexivity|].
  intros H. f_equal. now apply IH.
Qed.

(** Writing back the text an entry holds changes nothing. *)
Lemma file_set_same (zip : JSZip) (name text : string) :
  file_get zip name = Some (Text text) -> file_set zip name text = zip.
Proof.
  induction zip as [|[k e] zip IH]; simpl; [discriminate|].
  destruct (String.eqb_spec k name); intros H.
  - now inversion H.
  - now rewrite IH.
Qed.

(** ** The catalog *)

Lemma transXml_at_cases (i : nat) :
  (i mod 2 = 0 /\ nth_error TRANSITION_SEQUENCE (i mod 2) = Some "morph" /\
   transXml_at i = Some morph_xml) \/
  (i mod 2 = 1 /\ nth_error TRANSITION_SEQUENCE (i mod 2) = Some "push" /\
   transXml_at i = Some push_xml).
Proof.
  unfold transXml_at. change (length TRANSITION_SEQUENCE) with 2.
  assert (i mod 2 < 2) as H by (apply Nat.mod_upper_bound; lia).
  destruct (i mod 2) as [|[|k]]; [left | right | lia]; repeat split.
Qed.

(** Every fragment the loop can insert carries the marker of the guard. *)
Lemma inserted_text_has_marker (i : nat) :
  occurs marker (js_plus (transXml_at i) closing).
Proof.
  apply indexOf_present.
  destruct (transXml_at_cases i) as [(_ & _ & ->)|(_ & _ & ->)]; reflexivity.
Qed.

(** No replacement text holds a dollar sign, so [replace] takes each one
    literally. *)
Lemma replacement_is_literal (i : nat) :
  ~ occurs "$" (js_plus (transXml_at i) closing).
Proof.
  apply indexOf_absent.
  destruct (transXml_at_cases i) as [(_ & _ & ->)|(_ & _ & ->)]; reflexivity.
Qed.

(** ** One turn of the loop *)

(** A text with no marker and no closing tag, or with a marker, is left
    as it is. *)
Lemma turn_text_unclosed (i : nat) (x : string) :
  ~ occurs closing x -> turn_text i x = x.
Proof.
  intros H. unfold turn_text.
  destruct (indexOf x marker =? -1)%Z; [now apply replace_absent | reflexivity].
Qed.

Lemma turn_text_marked (i : nat) (x : string) :
  occurs marker x -> turn_text i x = x.
Proof.
  intros H. unfold turn_text. apply indexOf_present in H. now rewrite H.
Qed.

(** What a turn leaves is left alone by every later turn. *)
Lemma turn_text_settled (i j : nat) (x : string) :
  turn_text j (turn_text i x) = turn_text i x.
Proof.
  unfold turn_text at 2 3.
  destruct (indexOf x marker =? -1)%Z eqn:G.
  - destruct (indexOf x closing =? -1)%Z eqn:C.
    + apply indexOf_absent in C.
      rewrite (replace_absent _ _ _ C).
      now apply turn_text_unclosed.
    + apply indexOf_present in C.
      destruct (replace_first_occurrence x closing
                  (js_plus (transXml_at i) closing) C) as (pre & post & _ & -> & _).
      apply turn_text_marked, occurs_app_r, occurs_app_l, inserted_text_has_marker.
  - apply turn_text_marked. now apply indexOf_present.
Qed.

(** A turn on a readable entry returns. *)
Lemma injectSlide_readable (slideFiles : list string) (i : nat) (zip : JSZip) (p x : string) :
  nth_error slideFiles i = Some p ->
  file_get zip p = Some (Text x) ->
  injectSlide slideFiles i zip =
    Ok (if (indexOf x marker =? -1)%Z then file_set zip p (turn_text i x) else zip).
Proof.
  intros Hp Hx. unfold injectSlide. rewrite Hp. cbn [bind]. rewrite Hx.
  cbn [bind async_string]. unfold turn_text, transXml_at, marker, closing.
  now destruct (indexOf x "<p:transition" =? -1)%Z.
Qed.

(** A turn on an entry that cannot be decoded throws. *)
Lemma injectSlide_undecodable (slideFiles : list string) (i : nat) (zip : JSZip) (p : string) :
  nth_error slideFiles i = Some p ->
  file_get zip p = Some Undecodable ->
  injectSlide slideFiles i zip = Throw ZipError.
Proof.
  intros Hp Hx. unfold injectSlide. rewrite Hp. cbn [bind]. now rewrite Hx.
Qed.

(** A turn that returns has read a text entry and left [turn_text] of it
    there; no other entry and no path changes. *)
Lemma injectSlide_Ok (slideFiles : list string) (i : nat) (zip zip' : JSZip) :
  injectSlide slideFiles i zip = Ok zip' ->
  exists p x,
    nth_error slideFiles i = Some p /\
    file_get zip p = Some (Text x) /\
    zip' = (if (indexOf x marker =? -1)%Z then file_set zip p (turn_text i x) else zip) /\
    file_get zip' p = Some (Text (turn_text i x)) /\
    (forall q, q <> p -> file_get zip' q = file_get zip q) /\
    paths zip' = paths zip.
Proof.
  intros H.
  destruct (nth_error slideFiles i) as [p|] eqn:Hp;
    [|unfold injectSlide in H; rewrite Hp in H; discriminate].
  destruct (file_get zip p) as [[x|]|] eqn:G.
  - rewrite (injectSlide_readable _ _ _ _ _ Hp G) in H.
    exists p, x. split; [reflexivity|]. split; [exact G|].
    inversion H as [E]; clear H. split; [reflexivity|].
    unfold turn_text.
    destruct (indexOf x marker =? -1)%Z; repeat split; auto.
    + apply file_get_set_same.
    + intros q Hq. now apply file_get_set_other.
    + now apply (paths_file_set _ _ _ _ G).
  - rewrite (injectSlide_undecodable _ _ _ _ Hp G) in H. discriminate.
  - unfold injectSlide in H. rewrite Hp in H. cbn [bind] in H.
    rewrite G in H. discriminate.
Qed.

(** ** The loop *)

(** A property of the index and the package that every returning turn
    carries forward holds when the loop returns. *)
Lemma for_loop_invariant (P : nat -> JSZip -> Prop) (slideFiles : list string) :
  (forall i z z', P i z -> injectSlide slideFiles i z = Ok z' -> P (S i) z') ->
  forall n i z z',
    P i z -> for_loop slideFiles n i z = Ok z' -> P (n + i) z'.
Proof.
  intros Hstep. induction n as [|n IH]; simpl; intros i z z' HP H.
  - now inversion H; subst.
  - destruct (injectSlide slideFiles i z) as [z1|e] eqn:T; [simpl in H | discriminate].
    replace (S (n + i)) with (n + S i) by lia.
    apply (IH (S i) z1 z'); [|assumption]. now apply (Hstep i z z1).
Qed.

Lemma injectTransitions_Ok (zip zip' : JSZip) :
  injectTransitions zip = Ok zip' ->
  exists slideFiles,
    findSlideFiles zip = Ok slideFiles /\
    for_loop slideFiles (length slideFiles - 1) 1 zip = Ok zip'.
Proof.
  unfold injectTransitions. intros H.
  destruct (findSlideFiles zip) as [l|e]; [|discriminate]. now exists l.
Qed.

Lemma nth_error_slide (zip : JSZip) (slideFiles : list string) (i : nat) (p : string) :
  findSlideFiles zip = Ok slideFiles ->
  nth_error slideFiles i = Some p ->
  test_slide_path p = true /\ In p (paths zip).
Proof.
  intros Hf Hp. apply findSlideFiles_members in Hf as (_ & _ & Hall).
  rewrite Forall_forall in Hall. apply Hall. now apply nth_error_In in Hp.
Qed.

(** Two positions of a list without repetition hold different paths. *)
Lemma nth_error_distinct (l : list string) (i j : nat) (p q : string) :
  NoDup l -> nth_error l i = Some p -> nth_error l j = Some q -> i <> j -> p <> q.
Proof.
  intros Hn Hi Hj Hne ->. apply Hne.
  rewrite NoDup_nth_error in Hn. apply Hn; [|congruence].
  apply nth_error_Some. congruence.
Qed.

(** When the entries of all later turns are readable the loop returns. *)
Lemma for_loop_total (slideFiles : list string) (n i : nat) (zip : JSZip) :
  i + n <= length slideFiles ->
  (forall j p, i <= j -> nth_error slideFiles j = Some p ->
               exists x, file_get zip p = Some (Text x)) ->
  exists zip', for_loop slideFiles n i zip = Ok zip'.
Proof.
  revert i zip; induction n as [|n IH]; intros i zip Hlen Hread; simpl.
  - now exists zip.
  - destruct (nth_error slideFiles i) as [p|] eqn:Hp;
      [|apply nth_error_None in Hp; lia].
    destruct (Hread i p (le_n _) Hp) as [x Hx].
    pose proof (injectSlide_readable _ _ _ _ _ Hp Hx) as T.
    destruct (injectSlide slideFiles i zip) as [z1|e] eqn:T1; [clear T|discriminate].
    cbn [bind].
    apply injectSlide_Ok in T1 as (p' & x' & Hp' & Hx' & _ & Hnew & Hother & _).
    assert (p' = p) by congruence; subst p'.
    apply IH; [lia|]. intros j q Hj Hq.
    destruct (String.eqb_spec q p) as [->|Hne].
    + eexists. exact Hnew.
    + destruct (Hread j q ltac:(lia) Hq) as [y Hy]. exists y.
      now rewrite Hother.
Qed.

Lemma injectTransitions_total (zip : JSZip) (slideFiles : list string) :
  findSlideFiles zip = Ok slideFiles ->
  later_slides_readable zip slideFiles ->
  exists zip', injectTransitions zip = Ok zip'.
Proof.
  intros Hf Hr. unfold injectTransitions. rewrite Hf. cbn [bind].
  destruct slideFiles as [|first rest] eqn:E; [now exists zip|]. rewrite <- E in *.
  apply for_loop_total; [subst; simpl; lia|]. intros j p Hj Hp. now apply (Hr j p).
Qed.

(** With distinct slide paths, every turn meets the text its entry had
    at the start, and leaves [turn_text] of it. *)
Lemma for_loop_pointwise (slideFiles : list string) (zip zip' : JSZip) (n : nat) :
  NoDup slideFiles ->
  for_loop slideFiles n 1 zip = Ok zip' ->
  forall j p x,
    1 <= j < n + 1 -> nth_error slideFiles j = Some p ->
    file_get zip p = Some (Text x) ->
    file_get zip' p = Some (Text (turn_text j x)).
Proof.
  intros Hn Hl.
  pose (P := fun (i : nat) (z : JSZip) =>
    (forall j p x, 1 <= j < i -> nth_error slideFiles j = Some p ->
       file_get zip p = Some (Text x) ->
       file_get z p = Some (Text (turn_text j x))) /\
    (forall j p, i <= j -> nth_error slideFiles j = Some p ->
       file_get z p = file_get zip p)).
  assert (P (n + 1) zip') as [H _]; [|exact H].
  apply (for_loop_invariant P slideFiles) with (z := zip); [|split|assumption].
  - intros i z z' [Hdone Htodo] T.
    apply injectSlide_Ok in T as (p & x & Hp & Hx & _ & Hnew & Hother & _).
    split.
    + intros j q y Hj Hq Hy.
      destruct (Nat.eq_dec j i) as [->|Hji].
      * assert (q = p) by congruence; subst q.
        rewrite (Htodo i p (le_n _) Hp) in Hx.
        assert (y = x) by congruence; subst y. exact Hnew.
      * rewrite Hother; [apply (Hdone j q y); [lia | assumption | assumption]|].
        now apply (nth_error_distinct slideFiles j i).
    + intros j q Hj Hq. rewrite Hother; [apply (Htodo j q); [lia | assumption]|].
      apply (nth_error_distinct slideFiles j i); auto. lia.
  - intros j p x Hj. lia.
  - auto.
Qed.

Lemma injectTransitions_pointwise (zip zip' : JSZip) (slideFiles : list string) :
  NoDup (paths zip) ->
  findSlideFiles zip = Ok slideFiles ->
  injectTransitions zip = Ok zip' ->
  forall j p x,
    1 <= j -> nth_error slideFiles j = Some p ->
    file_get zip p = Some (Text x) ->
    file_get zip' p = Some (Text (turn_text j x)).
Proof.
  intros Hn Hf Hi j p x Hj Hp Hx.
  apply injectTransitions_Ok in Hi as (l & Hl & Hloop).
  assert (l = slideFiles) by congruence; subst l.
  apply (for_loop_pointwise slideFiles zip zip' (length slideFiles - 1)); auto.
  - now apply (findSlideFiles_NoDup zip).
  - assert (j < length slideFiles) by (apply nth_error_Some; congruence). lia.
Qed.

(** The text [turn_text] yields for a fresh slide, spelled out. *)
Lemma turn_text_fresh (i : nat) (x : string) :
  ~ occurs marker x ->
  exists id xml,
    nth_error TRANSITION_SEQUENCE (i mod 2) = Some id /\
    get_property TRANSITIONS id = Some xml /\
    (i mod 2 = 1 -> id = "push" /\ xml = push_xml) /\
    (i mod 2 = 0 -> id = "morph" /\ xml = morph_xml) /\
    turn_text i x = replace x closing (xml ++ closing) /\
    (occurs closing x ->
     inserted_before_closing xml x (replace x closing (xml ++ closing))).
Proof.
  intros Hm. apply indexOf_absent in Hm. unfold turn_text. rewrite Hm.
  destruct (transXml_at_cases i) as [(Hi & Hs & ->)|(Hi & Hs & ->)].
  - exists "morph", morph_xml. rewrite Hi in *.
    repeat split; try reflexivity; try discriminate.
    intros Hc.
    destruct (replace_first_occurrence x closing (morph_xml ++ closing) Hc)
      as (pre & post & E1 & E2 & E3).
    exists pre, post. rewrite E2, append_assoc. auto.
  - exists "push", push_xml. rewrite Hi in *.
    repeat split; try reflexivity; try discriminate.
    intros Hc.
    destruct (replace_first_occurrence x closing (push_xml ++ closing) Hc)
      as (pre & post & E1 & E2 & E3).
    exists pre, post. rewrite E2, append_assoc. auto.
Qed.

Lemma distinctb_NoDup (l : list string) : distinctb l = true -> NoDup l.
Proof.
  induction l as [|x l IH]; simpl; intros H; constructor.
  - apply andb_true_iff in H as [H _]. apply negb_true_iff in H.
    intros Hin. enough (existsb (String.eqb x) l = true) by congruence.
    apply existsb_exists. exists x. split; [assumption | apply String.eqb_refl].
  - apply andb_true_iff in H as [_ H]. auto.
Qed.

Lemma In_file_get (zip : JSZip) (name : string) :
  In name (paths zip) -> exists d, file_get zip name = Some d.
Proof.
  induction zip as [|[k e] zip IH]; simpl; [contradiction|].
  intros H. destruct (String.eqb_spec k name) as [->|Hne]; [now exists e|].
  destruct H; [contradiction | auto].
Qed.

Lemma findSlideFiles_paths (zip zip' : JSZip) :
  paths zip' = paths zip -> findSlideFiles zip' = findSlideFiles zip.
Proof. intros H. unfold findSlideFiles. now rewrite H. Qed.

(** * The testable properties *)

(** C8.  Non-slide entries are untouched: when the loop returns, the
    package has the same paths in the same order, so every entry that was
    present is still present, and every entry whose path is not of the
    slide naming convention holds what it held; an entry whose content
    changed is a slide entry. *)
Theorem non_slide_entries_untouched (zip zip' : JSZip) :
  injectTransitions zip = Ok zip' ->
  paths zip' = paths zip /\
  (forall p d, file_get zip p = Some d -> exists d', file_get zip' p = Some d') /\
  (forall p, ~ slide_named p -> file_get zip' p = file_get zip p) /\
  (forall p, file_get zip' p <> file_get zip p -> slide_named p).
Proof.
  intros H. apply injectTransitions_Ok in H as (l & Hf & Hloop).
  pose (P := fun (_ : nat) (z : JSZip) =>
    paths z = paths zip /\
    forall p, test_slide_path p = false -> file_get z p = file_get zip p).
  assert (P (length l - 1 + 1) zip') as [Hpaths Hsame].
  { apply (for_loop_invariant P l) with (z := zip); [|now split|assumption].
    intros i z z1 [Hp Hs] T.
    apply injectSlide_Ok in T as (p & x & Hn & _ & _ & _ & Hother & Hpz).
    split; [congruence|]. intros q Hq.
    rewrite Hother; [now apply Hs|].
    intros ->. destruct (nth_error_slide _ _ _ _ Hf Hn). congruence. }
  assert (forall p, ~ slide_named p -> file_get zip' p = file_get zip p) as Hns.
  { intros p Hp. apply Hsame.
    destruct (test_slide_path p) eqn:E; [|reflexivity].
    now apply test_slide_path_iff in E. }
  repeat split; auto.
  - intros p d Hd. apply In_file_get. rewrite Hpaths. now apply (file_get_In _ _ d).
  - intros p Hp. destruct (test_slide_path p) eqn:E.
    + now apply test_slide_path_iff.
    + now rewrite (Hsame p) in Hp.
Qed.

Lemma non_slide_entries_untouched_witness :
  paths deck3_out = paths deck3 /\
  file_get deck3_out "ppt/slideLayouts/slideLayout1.xml"
    = file_get deck3 "ppt/slideLayouts/slideLayout1.xml".
Proof.
  destruct (non_slide_entries_untouched deck3 deck3_out) as (H1 & _ & H3 & _).
  - vm_compute. reflexivity.
  - split; [exact H1|]. apply H3.
    intros H. apply test_slide_path_iff in H. vm_compute in H. discriminate.
Defined.

(** The loop writes at the positions it visits only: with distinct
    paths, an entry at a position before the first turn is not touched. *)
Lemma for_loop_earlier_untouched (slideFiles : list string) (n i : nat) (zip zip' : JSZip) :
  NoDup slideFiles ->
  for_loop slideFiles n i zip = Ok zip' ->
  forall j p, j < i -> nth_error slideFiles j = Some p ->
    file_get zip' p = file_get zip p.
Proof.
  intros Hnd Hloop j p Hj Hp.
  pose (P := fun (k : nat) (z : JSZip) =>
    i <= k /\ file_get z p = file_get zip p).
  assert (P (n + i) zip') as [_ Hsame]; [|exact Hsame].
  apply (for_loop_invariant P slideFiles) with (z := zip);
    [|split; [lia | reflexivity]|assumption].
  intros k z z1 [Hk Hs] T.
  apply injectSlide_Ok in T as (q & x & Hq & _ & _ & _ & Hother & _).
  split; [lia|]. rewrite Hother; [assumption|].
  apply (nth_error_distinct slideFiles j k); auto. lia.
Qed.

(** C6.  First-slide invariance: the entry of the slide at position 0
    holds after the loop what it held before. *)
Theorem first_slide_unchanged (zip zip' : JSZip) (first : string) (rest : list string) :
  NoDup (paths zip) ->
  findSlideFiles zip = Ok (first :: rest) ->
  injectTransitions zip = Ok zip' ->
  file_get zip' first = file_get zip first.
Proof.
  intros Hn Hf H. apply injectTransitions_Ok in H as (l & Hl & Hloop).
  assert (l = first :: rest) by congruence; subst l.
  pose proof (findSlideFiles_NoDup _ _ Hn Hf) as Hnd.
  apply (for_loop_earlier_untouched _ _ _ _ _ Hnd Hloop 0 first); [lia|].
  reflexivity.
Qed.

Lemma first_slide_unchanged_witness :
  file_get deck3_out slide1 = file_get deck3 slide1.
Proof.
  apply (first_slide_unchanged deck3 deck3_out slide1 [slide2; slide3]).
  - apply distinctb_NoDup. vm_compute. reflexivity.
  - vm_compute. reflexivity.
  - vm_compute. reflexivity.
Defined.

(** C5.  Cyclic assignment: in a package with distinct paths, the slide at
    position [i >= 1] that passes the guard (its text has no transition
    marker) is written back with the catalog entry of
    [TRANSITION_SEQUENCE[i mod 2]] in front of its first closing tag; odd
    positions take the second identifier of the sequence (push), even
    positions the first (morph).  This holds for any number of slides. *)
Theorem cyclic_assignment (zip zip' : JSZip) (slideFiles : list string)
    (i : nat) (p x : string) :
  NoDup (paths zip) ->
  findSlideFiles zip = Ok slideFiles ->
  injectTransitions zip = Ok zip' ->
  1 <= i ->
  nth_error slideFiles i = Some p ->
  file_get zip p = Some (Text x) ->
  ~ occurs marker x ->
  exists id xml,
    nth_error TRANSITION_SEQUENCE (i mod 2) = Some id /\
    get_property TRANSITIONS id = Some xml /\
    (i mod 2 = 1 -> id = "push" /\ xml = push_xml) /\
    (i mod 2 = 0 -> id = "morph" /\ xml = morph_xml) /\
    file_get zip' p = Some (Text (replace x closing (xml ++ closing))) /\
    (occurs closing x ->
     inserted_before_closing xml x (replace x closing (xml ++ closing))).
Proof.
  intros Hn Hf Hi Hge Hp Hx Hm.
  pose proof (injectTransitions_pointwise _ _ _ Hn Hf Hi i p x Hge Hp Hx) as Hnew.
  destruct (turn_text_fresh i x Hm) as (id & xml & H1 & H2 & H3 & H4 & H5 & H6).
  exists id, xml. rewrite H5 in Hnew. repeat (split; [assumption|]). assumption.
Qed.

Lemma cyclic_assignment_witness :
  exists id xml,
    nth_error TRANSITION_SEQUENCE (2 mod 2) = Some id /\
    get_property TRANSITIONS id = Some xml /\
    (2 mod 2 = 1 -> id = "push" /\ xml = push_xml) /\
    (2 mod 2 = 0 -> id = "morph" /\ xml = morph_xml) /\
    file_get deck3_out slide3
      = Some (Text (replace (sld "three") closing (xml ++ closing))) /\
    (occurs closing (sld "three") ->
     inserted_before_closing xml (sld "three")
       (replace (sld "three") closing (xml ++ closing))).
Proof.
  apply (cyclic_assignment deck3 deck3_out [slide1; slide2; slide3] 2 slide3).
  - apply distinctb_NoDup. vm_compute. reflexivity.
  - vm_compute. reflexivity.
  - vm_compute. reflexivity.
  - lia.
  - reflexivity.
  - reflexivity.
  - apply indexOf_absent. vm_compute. reflexivity.
Defined.

(** C2, amended.  A deck of three fresh slides with distinct paths: the
    loop returns, slide 1 is unmodified, slide 2 has the safe effect
    (push) and slide 3 the rich effect (morph, with its fallback) in front
    of its closing tag. *)
Theorem three_slides_safe_then_rich (zip : JSZip) (p1 p2 p3 x2 x3 : string) :
  NoDup (paths zip) ->
  findSlideFiles zip = Ok [p1; p2; p3] ->
  file_get zip p2 = Some (Text x2) ->
  file_get zip p3 = Some (Text x3) ->
  ~ occurs marker x2 -> occurs closing x2 ->
  ~ occurs marker x3 -> occurs closing x3 ->
  exists zip',
    injectTransitions zip = Ok zip' /\
    file_get zip' p1 = file_get zip p1 /\
    (exists y2, file_get zip' p2 = Some (Text y2) /\
                inserted_before_closing push_xml x2 y2) /\
    (exists y3, file_get zip' p3 = Some (Text y3) /\
                inserted_before_closing morph_xml x3 y3).
Proof.
  intros Hn Hf H2 H3 Hm2 Hc2 Hm3 Hc3.
  destruct (injectTransitions_total zip [p1; p2; p3] Hf) as [zip' Hi].
  { intros j p Hj Hp. destruct j as [|[|[|j]]]; [lia | | |].
    - inversion Hp; subst. now exists x2.
    - inversion Hp; subst. now exists x3.
    - destruct j; discriminate. }
  exists zip'. split; [assumption|]. split.
  - pose proof (findSlideFiles_NoDup _ _ Hn Hf) as Hnd.
    destruct (injectTransitions_Ok _ _ Hi) as (l & Hl & Hloop).
    assert (l = [p1; p2; p3]) by congruence; subst l.
    apply (for_loop_earlier_untouched _ _ _ _ _ Hnd Hloop 0 p1); [lia | reflexivity].
  - split.
    + pose proof (injectTransitions_pointwise _ _ _ Hn Hf Hi 1 p2 x2
                    (le_n _) eq_refl H2) as Hw.
      destruct (turn_text_fresh 1 x2 Hm2) as (id & xml & _ & _ & Ho & _ & Ht & Hins).
      destruct (Ho eq_refl) as [_ ->]. rewrite Ht in Hw. eauto.
    + pose proof (injectTransitions_pointwise _ _ _ Hn Hf Hi 2 p3 x3
                    ltac:(lia) eq_refl H3) as Hw.
      destruct (turn_text_fresh 2 x3 Hm3) as (id & xml & _ & _ & _ & He & Ht & Hins).
      destruct (He eq_refl) as [_ ->]. rewrite Ht in Hw. eauto.
Qed.

Lemma three_slides_safe_then_rich_witness :
  exists zip',
    injectTransitions deck3 = Ok zip' /\
    file_get zip' slide1 = file_get deck3 slide1 /\
    (exists y2, file_get zip' slide2 = Some (Text y2) /\
                inserted_before_closing push_xml (sld "two") y2) /\
    (exists y3, file_get zip' slide3 = Some (Text y3) /\
                inserted_before_closing morph_xml (sld "three") y3).
Proof.
  apply (three_slides_safe_then_rich deck3 slide1 slide2 slide3).
  - apply distinctb_NoDup. vm_compute. reflexivity.
  - vm_compute. reflexivity.
  - reflexivity.
  - reflexivity.
  - apply indexOf_absent. vm_compute. reflexivity.
  - apply indexOf_present. vm_compute. reflexivity.
  - apply indexOf_absent. vm_compute. reflexivity.
  - apply indexOf_present. vm_compute. reflexivity.
Defined.

Lemma length_append (a b : string) :
  String.length (a ++ b) = String.length a + String.length b.
Proof. induction a as [|c a IH]; simpl; [reflexivity | now rewrite IH]. Qed.

(** An insertion lengthens the text by the length of what is inserted. *)
Lemma inserted_before_closing_length (xml before after : string) :
  inserted_before_closing xml before after ->
  String.length after = String.length before + String.length xml.
Proof.
  intros (pre & post & -> & -> & _). rewrite !length_append. lia.
Qed.

Lemma injectTransitions_deck3 : injectTransitions deck3 = Ok deck3_out.
Proof. vm_compute. reflexivity. Qed.

(** C2, as the spec words it, fails on [deck3]: the loop puts push, not
    morph, into slide 2 (position 1 takes [TRANSITION_SEQUENCE[1]]). *)
Lemma scenario_rich_then_safe_fails : ~ scenario_rich_then_safe deck3.
Proof.
  intros H.
  destruct (H slide1 slide2 slide3 (sld "two") (sld "three"))
    as (zip' & Hi & _ & (y2 & Hy2 & Hins) & _).
  - vm_compute. reflexivity.
  - reflexivity.
  - reflexivity.
  - apply indexOf_absent. vm_compute. reflexivity.
  - apply indexOf_present. vm_compute. reflexivity.
  - apply indexOf_absent. vm_compute. reflexivity.
  - apply indexOf_present. vm_compute. reflexivity.
  - rewrite injectTransitions_deck3 in Hi. inversion Hi; subst zip'.
    vm_compute in Hy2. inversion Hy2; subst y2.
    apply inserted_before_closing_length in Hins.
    vm_compute in Hins. discriminate.
Qed.

(** C9.  A slide whose text has no closing root tag, in a package with
    distinct paths whose slides from position 1 on can be read: the run
    returns; the entry of that slide holds the text it held (it is
    written back with the text it was decoded to); and the other slides
    are processed all the same: every fresh slide at a position from 1
    on, before or after the unclosed one, has the fragment of its
    position in front of its first closing tag. *)
Theorem unclosed_slide_left_alone (zip : JSZip) (slideFiles : list string)
    (i : nat) (p x : string) :
  NoDup (paths zip) ->
  findSlideFiles zip = Ok slideFiles ->
  later_slides_readable zip slideFiles ->
  nth_error slideFiles i = Some p ->
  file_get zip p = Some (Text x) ->
  ~ occurs closing x ->
  exists zip',
    injectTransitions zip = Ok zip' /\
    file_get zip' p = Some (Text x) /\
    forall j q y,
      1 <= j -> nth_error slideFiles j = Some q ->
      file_get zip q = Some (Text y) ->
      ~ occurs marker y -> occurs closing y ->
      exists id xml y',
        nth_error TRANSITION_SEQUENCE (j mod 2) = Some id /\
        get_property TRANSITIONS id = Some xml /\
        file_get zip' q = Some (Text y') /\
        y' <> y /\
        inserted_before_closing xml y y'.
Proof.
  intros Hn Hf Hr Hp Hx Hc.
  destruct (injectTransitions_total zip slideFiles Hf Hr) as [zip' Hi].
  exists zip'. split; [assumption|]. split.
  - destruct (injectTransitions_Ok _ _ Hi) as (l & Hl & Hloop).
    assert (l = slideFiles) by congruence; subst l.
    pose (P := fun (_ : nat) (z : JSZip) => file_get z p = Some (Text x)).
    assert (P (length slideFiles - 1 + 1) zip') as Hend; [|exact Hend].
    apply (for_loop_invariant P slideFiles) with (z := zip);
      [|assumption|assumption].
    intros j z z1 Hz T. unfold P in *.
    apply injectSlide_Ok in T as (q & y & _ & Hy & _ & Hnew & Hother & _).
    destruct (String.eqb_spec p q) as [<-|Hne]; [|now rewrite Hother].
    assert (y = x) by congruence; subst y.
    now rewrite Hnew, (turn_text_unclosed j x Hc).
  - intros j q y Hj Hq Hy Hm Hcl.
    pose proof (injectTransitions_pointwise _ _ _ Hn Hf Hi j q y Hj Hq Hy) as Hnew.
    destruct (turn_text_fresh j y Hm) as (id & xml & H1 & H2 & _ & _ & H5 & H6).
    exists id, xml, (replace y closing (xml ++ closing)).
    rewrite H5 in Hnew. specialize (H6 Hcl).
    repeat (split; [assumption|]). split; [|assumption].
    intros E. apply inserted_before_closing_length in H6. rewrite E in H6.
    assert (0 < String.length xml).
    { destruct (transXml_at_cases j) as [(_ & Hs & _)|(_ & Hs & _)];
        rewrite Hs in H1; inversion H1; subst id;
        vm_compute in H2; inversion H2; vm_compute; lia. }
    lia.
Qed.

Lemma unclosed_slide_left_alone_witness :
  exists zip',
    injectTransitions deck3_unclosed = Ok zip' /\
    file_get zip' slide2 = Some (Text "<p:sld><p:cSld>two</p:cSld>") /\
    exists id xml y',
      nth_error TRANSITION_SEQUENCE (2 mod 2) = Some id /\
      get_property TRANSITIONS id = Some xml /\
      file_get zip' slide3 = Some (Text y') /\
      y' <> sld "three" /\
      inserted_before_closing xml (sld "three") y'.
Proof.
  destruct (unclosed_slide_left_alone deck3_unclosed [slide1; slide2; slide3] 1
              slide2 "<p:sld><p:cSld>two</p:cSld>") as (zip' & Hi & Hsame & Hrest).
  - apply distinctb_NoDup. vm_compute. reflexivity.
  - vm_compute. reflexivity.
  - intros j q Hj Hq. destruct j as [|[|[|j]]]; [lia | | |].
    + inversion Hq; subst. eexists. reflexivity.
    + inversion Hq; subst. eexists. reflexivity.
    + destruct j; discriminate.
  - reflexivity.
  - reflexivity.
  - apply indexOf_absent. vm_compute. reflexivity.
  - exists zip'. split; [exact Hi|]. split; [exact Hsame|].
    apply (Hrest 2 slide3 (sld "three")).
    + lia.
    + reflexivity.
    + reflexivity.
    + apply indexOf_absent. vm_compute. reflexivity.
    + apply indexOf_present. vm_compute. reflexivity.
Defined.

(** ** Running twice *)

(** After a run, every slide from position 1 on holds a text that no
    turn would change: it carries the marker, or it has no closing tag. *)
Lemma run_settles_slides (zip zip1 : JSZip) (slideFiles : list string) :
  findSlideFiles zip = Ok slideFiles ->
  injectTransitions zip = Ok zip1 ->
  paths zip1 = paths zip /\
  forall j p, 1 <= j -> nth_error slideFiles j = Some p ->
    exists y, file_get zip1 p = Some (Text y) /\ forall k, turn_text k y = y.
Proof.
  intros Hf Hi. apply injectTransitions_Ok in Hi as (l & Hl & Hloop).
  assert (l = slideFiles) by congruence; subst l.
  pose (P := fun (i : nat) (z : JSZip) =>
    paths z = paths zip /\
    forall j p, 1 <= j < i -> nth_error slideFiles j = Some p ->
      exists y, file_get z p = Some (Text y) /\ forall k, turn_text k y = y).
  assert (P (length slideFiles - 1 + 1) zip1) as [Hpaths Hset].
  { apply (for_loop_invariant P slideFiles) with (z := zip);
      [|split; [reflexivity | intros; lia]|assumption].
    intros i z z1 [Hp Hs] T.
    apply injectSlide_Ok in T as (p & x & Hn & _ & _ & Hnew & Hother & Hpz).
    split; [congruence|]. intros j q Hj Hq.
    destruct (String.eqb_spec q p) as [->|Hne].
    - exists (turn_text i x). split; [assumption|].
      intros k. apply turn_text_settled.
    - rewrite (Hother q Hne). apply (Hs j q); [|assumption].
      destruct (Nat.eq_dec j i) as [->|]; [congruence | lia]. }
  split; [assumption|]. intros j p Hj Hp. apply (Hset j p); [|assumption].
  assert (j < length slideFiles) by (apply nth_error_Some; congruence). lia.
Qed.

(** On settled slides the loop returns the package it was given. *)
Lemma for_loop_fixed (slideFiles : list string) (n i : nat) (zip : JSZip) :
  n = 0 \/ i + n <= length slideFiles ->
  (forall j p, i <= j -> nth_error slideFiles j = Some p ->
     exists y, file_get zip p = Some (Text y) /\ forall k, turn_text k y = y) ->
  for_loop slideFiles n i zip = Ok zip.
Proof.
  revert i; induction n as [|n IH]; intros i Hlen Hset; simpl; [reflexivity|].
  destruct (nth_error slideFiles i) as [p|] eqn:Hp;
    [|apply nth_error_None in Hp; lia].
  destruct (Hset i p (le_n _) Hp) as (y & Hy & Hfix).
  rewrite (injectSlide_readable _ _ _ _ _ Hp Hy), Hfix, (file_set_same _ _ _ Hy).
  replace (if (indexOf y marker =? -1)%Z then zip else zip) with zip
    by now destruct (indexOf y marker =? -1)%Z.
  cbn [bind]. apply IH; [lia|].
  intros j q Hj Hq. apply (Hset j q); [lia | assumption].
Qed.

(** A package whose slides from position 1 on are settled is returned
    as it is. *)
Lemma settled_package_fixed (zip : JSZip) (slideFiles : list string) :
  findSlideFiles zip = Ok slideFiles ->
  (forall j p, 1 <= j -> nth_error slideFiles j = Some p ->
     exists y, file_get zip p = Some (Text y) /\ forall k, turn_text k y = y) ->
  injectTransitions zip = Ok zip.
Proof.
  intros Hf Hset. unfold injectTransitions. rewrite Hf. cbn [bind].
  apply for_loop_fixed; [|assumption].
  destruct slideFiles; [now left | right; simpl; lia].
Qed.

(** C3.  Idempotence: a second run on the package a first run produced
    returns that package unchanged, so every slide text after the second
    run is its text after the first. *)
Theorem second_run_changes_nothing (zip zip1 : JSZip) :
  injectTransitions zip = Ok zip1 ->
  injectTransitions zip1 = Ok zip1.
Proof.
  intros Hi.
  destruct (findSlideFiles_spec zip) as (l & Hf & _).
  destruct (run_settles_slides zip zip1 l Hf Hi) as [Hpaths Hset].
  apply (settled_package_fixed zip1 l).
  - now rewrite (findSlideFiles_paths _ _ Hpaths).
  - exact Hset.
Qed.

Lemma second_run_changes_nothing_witness :
  injectTransitions deck3_out = Ok deck3_out.
Proof.
  apply (second_run_changes_nothing deck3 deck3_out).
  vm_compute. reflexivity.
Defined.

(** ** The order of the slides *)

Lemma number_of_ordinal (path : string) :
  test_slide_path path = true ->
  (slide_ordinal path < 2 ^ 53)%N ->
  number_of path = slide_ordinal path.
Proof.
  intros Ht Hb. destruct (slideNumber_named path Ht) as (ds & _ & _ & Hn & Ho).
  unfold number_of. rewrite Hn, Ho. apply parseInt_exact. now rewrite <- Ho.
Qed.

Lemma deck11_ascending :
  StronglySorted (fun a b => (number_of a < number_of b)%N) deck11.
Proof.
  unfold deck11.
  repeat (constructor; [|repeat (constructor; [vm_compute; reflexivity|]); constructor]).
  constructor.
Qed.

(** C7, amended.  Order correctness for safe ordinals: when the ordinals
    in the names of the slide entries are below 2^53 (where a Number is
    the integer itself) and no two are equal, the slide list is built,
    holds the slide paths of the package, and ascends strictly in the
    ordinals; slide paths with the ordinals 1 to 11, in whatever order
    the archive lists them, are processed in the order 1, 2, ..., 10,
    11. *)
Theorem slides_in_ordinal_order (zip : JSZip) :
  (forall p, In p (slide_entries zip) -> (slide_ordinal p < 2 ^ 53)%N) ->
  NoDup (map slide_ordinal (slide_entries zip)) ->
  exists slideFiles,
    findSlideFiles zip = Ok slideFiles /\
    Permutation slideFiles (slide_entries zip) /\
    StronglySorted (fun a b => (slide_ordinal a < slide_ordinal b)%N) slideFiles /\
    (Permutation (slide_entries zip) deck11 -> slideFiles = deck11).
Proof.
  intros Hsafe Huniq.
  destruct (findSlideFiles_spec zip) as (l & Hf & Hp & Hs).
  exists l. split; [assumption|]. split; [assumption|].
  assert (forall a, In a l -> number_of a = slide_ordinal a) as Hnum.
  { intros a Ha. apply (Permutation_in _ Hp) in Ha.
    apply number_of_ordinal; [|now apply Hsafe].
    now apply filter_In in Ha. }
  split.
  - apply StronglySorted_strict.
    + apply (StronglySorted_weaken le_number); [|assumption].
      intros a b Ha Hb. unfold le_number. now rewrite (Hnum a Ha), (Hnum b Hb).
    + apply (Permutation_NoDup (l := map slide_ordinal (slide_entries zip)));
        [|assumption].
      now apply Permutation_map, Permutation_sym.
  - intros H11. apply (sorted_arrangement_unique number_of).
    + apply deck11_ascending.
    + exact Hs.
    + now rewrite Hp.
Qed.

Lemma slides_in_ordinal_order_witness :
  exists slideFiles,
    findSlideFiles deck11_lexical = Ok slideFiles /\ slideFiles = deck11.
Proof.
  destruct (slides_in_ordinal_order deck11_lexical) as (l & Hf & _ & _ & H11).
  - intros p Hp. vm_compute in Hp.
    repeat (destruct Hp as [<-|Hp]; [vm_compute; reflexivity|]). contradiction.
  - vm_compute.
    repeat (apply NoDup_cons;
            [intros Hin;
             repeat (destruct Hin as [Hin|Hin]; [discriminate Hin|]);
             exact Hin|]).
    apply NoDup_nil.
  - exists l. split; [exact Hf|]. apply H11.
    vm_compute. apply perm_skip.
    apply (Permutation_app_comm (_ :: _ :: nil)
             (_ :: _ :: _ :: _ :: _ :: _ :: _ :: _ :: nil)).
Defined.

(** C7, as the spec words it, fails beyond 2^53: the ordinals 2^53 + 1
    and 2^53 are distinct, both names parse to the Number 2^53, the
    comparator answers 0, and the slide with the greater ordinal, which
    the archive lists first, is processed first (and is the one the loop
    leaves unmodified). *)
Lemma unsafe_ordinals_out_of_order :
  NoDup (map slide_ordinal (slide_entries deck2_unsafe)) /\
  findSlideFiles deck2_unsafe
    = Ok [ "ppt/slides/slide9007199254740993.xml";
           "ppt/slides/slide9007199254740992.xml" ] /\
  (slide_ordinal "ppt/slides/slide9007199254740992.xml"
   < slide_ordinal "ppt/slides/slide9007199254740993.xml")%N /\
  ~ processed_in_ordinal_order deck2_unsafe.
Proof.
  assert (findSlideFiles deck2_unsafe
          = Ok [ "ppt/slides/slide9007199254740993.xml";
                 "ppt/slides/slide9007199254740992.xml" ]) as Hf
    by (vm_compute; reflexivity).
  split; [|split; [exact Hf|split]].
  - vm_compute.
    repeat (apply NoDup_cons;
            [intros Hin;
             repeat (destruct Hin as [Hin|Hin]; [discriminate Hin|]);
             exact Hin|]).
    apply NoDup_nil.
  - vm_compute. reflexivity.
  - intros (l & Hl & Hsorted). rewrite Hf in Hl. inversion Hl; subst l.
    inversion Hsorted as [|? ? _ Hall]; subst.
    inversion Hall as [|? ? Hlt _]; subst.
    vm_compute in Hlt. discriminate Hlt.
Qed.

(** ** Lookups *)

(** C10.  The lookups of the loop cannot come out null or undefined: on
    a path the filter accepts, the match of the comparator succeeds with
    a non-empty digit run, so the comparator returns on any two such
    paths; and for every index the sequence yields an identifier, which
    is a key of the catalog, as every identifier of the sequence is. *)
Theorem lookups_defined (relativePath : string) (i : nat) :
  test_slide_path relativePath = true ->
  (exists ds, match_slide_digits relativePath = Some ds /\
              ds <> EmptyString /\
              slideNumber relativePath = Ok (parseInt ds)) /\
  (forall b, test_slide_path b = true ->
             exists c, compareFn relativePath b = Ok c) /\
  (exists id xml,
     nth_error TRANSITION_SEQUENCE (i mod length TRANSITION_SEQUENCE) = Some id /\
     get_property TRANSITIONS id = Some xml /\
     transXml_at i = Some xml) /\
  Forall (fun id => exists xml, get_property TRANSITIONS id = Some xml)
         TRANSITION_SEQUENCE.
Proof.
  intros Ht.
  destruct (slideNumber_named relativePath Ht) as (ds & Hne & Hm & Hn & _).
  split; [exists ds; auto|]. split; [|split].
  - intros b Hb. destruct (slideNumber_named b Hb) as (ds' & _ & _ & Hn' & _).
    eexists. apply (compareFn_Ok _ _ _ _ Hn Hn').
  - change (length TRANSITION_SEQUENCE) with 2.
    destruct (transXml_at_cases i) as [(_ & Hs & Hx)|(_ & Hs & Hx)].
    + exists "morph", morph_xml. auto.
    + exists "push", push_xml. auto.
  - repeat constructor; eexists; reflexivity.
Qed.

Lemma lookups_defined_witness :
  (exists ds, match_slide_digits "ppt/slides/slide12.xml" = Some ds /\
              ds <> EmptyString /\
              slideNumber "ppt/slides/slide12.xml" = Ok (parseInt ds)) /\
  (exists id xml,
     nth_error TRANSITION_SEQUENCE (7 mod length TRANSITION_SEQUENCE) = Some id /\
     get_property TRANSITIONS id = Some xml /\
     transXml_at 7 = Some xml).
Proof.
  destruct (lookups_defined "ppt/slides/slide12.xml" 7) as (H1 & _ & H3 & _).
  - vm_compute. reflexivity.
  - split; assumption.
Defined.

(** ** Failures *)

(** An entry that cannot be decoded, at a position the loop has still to
    visit, makes the loop throw. *)
Lemma for_loop_throws (slideFiles : list string) (n i : nat) (zip : JSZip)
    (j : nat) (p : string) :
  i + n = length slideFiles ->
  i <= j -> nth_error slideFiles j = Some p ->
  file_get zip p = Some Undecodable ->
  exists e, for_loop slideFiles n i zip = Throw e.
Proof.
  revert i zip; induction n as [|n IH]; intros i zip Hlen Hj Hp Hu.
  - assert (j < length slideFiles) by (apply nth_error_Some; congruence). lia.
  - simpl. destruct (injectSlide slideFiles i zip) as [z1|e] eqn:T;
      [|now exists e].
    cbn [bind].
    apply injectSlide_Ok in T as (q & x & Hq & Hx & _ & _ & Hother & _).
    assert (p <> q) as Hne by (intros ->; congruence).
    apply IH; [lia | | assumption | now rewrite Hother].
    destruct (Nat.eq_dec j i) as [->|]; [congruence | lia].
Qed.

Lemma injectTransitions_throws (zip : JSZip) (slideFiles : list string)
    (i : nat) (p : string) :
  findSlideFiles zip = Ok slideFiles ->
  1 <= i -> nth_error slideFiles i = Some p ->
  file_get zip p = Some Undecodable ->
  exists e, injectTransitions zip = Throw e.
Proof.
  intros Hf Hi Hp Hu. unfold injectTransitions. rewrite Hf. cbn [bind].
  apply (for_loop_throws slideFiles _ 1 zip i p); auto.
  assert (i < length slideFiles) by (apply nth_error_Some; congruence). lia.
Qed.

(** Whenever the library could be reached the promise resolves, with the
    blob that came in or with the one [generateAsync] made. *)
Lemma applyTransitions_resolves {Blob : Type} `{JSZipLib Blob}
    (st : Startup) (pptxBlob : Blob) :
  st <> ScriptFailed ->
  applyTransitions st pptxBlob = Resolved pptxBlob \/
  exists zip zip' out,
    loadAsync pptxBlob = Ok zip /\ injectTransitions zip = Ok zip' /\
    generateAsync zip' = Ok out /\
    applyTransitions st pptxBlob = Resolved out.
Proof.
  intros Hst. unfold applyTransitions, try_body.
  destruct st as [|[|]|]; try contradiction; try (now left);
    (destruct (loadAsync pptxBlob) as [zip|] eqn:L; [|now left];
     cbn [bind];
     destruct (injectTransitions zip) as [zip'|] eqn:I; [|now left];
     cbn [bind];
     destruct (generateAsync zip') as [out|] eqn:G; [|now left];
     right; exists zip, zip', out; auto).
Qed.

(** C4.  Fail-safe on corrupt input: the library being reachable, a blob
    that [loadAsync] rejects, or whose package [generateAsync] rejects,
    makes the promise resolve with that very blob. *)
Theorem unparsable_blob_returned {Blob : Type} `{JSZipLib Blob}
    (st : Startup) (pptxBlob : Blob) :
  st <> ScriptFailed ->
  (exists e, loadAsync pptxBlob = Throw e) \/
  (exists zip zip' e,
     loadAsync pptxBlob = Ok zip /\ injectTransitions zip = Ok zip' /\
     generateAsync zip' = Throw e) ->
  applyTransitions st pptxBlob = Resolved pptxBlob.
Proof.
  intros Hst Hfail. unfold applyTransitions, try_body.
  destruct st as [|[|]|]; try contradiction; try reflexivity;
    (destruct Hfail as [[e ->]|(zip & zip' & e & -> & Hi & Hg)];
     [reflexivity | cbn [bind]; rewrite Hi; cbn [bind]; now rewrite Hg]).
Qed.

Lemma unparsable_blob_returned_witness :
  applyTransitions JSZipDefined NotAnArchive = Resolved NotAnArchive.
Proof.
  apply unparsable_blob_returned.
  - discriminate.
  - left. exists ZipError. reflexivity.
Defined.

(** C1, amended.  An exception raised in the turn for one slide is caught
    by the handler around the whole operation only: with an entry that
    cannot be decoded at a position from 1 on, the loop throws, and the
    promise resolves with the blob that came in. *)
Theorem slide_error_falls_back {Blob : Type} `{JSZipLib Blob}
    (st : Startup) (pptxBlob : Blob) (zip : JSZip) (slideFiles : list string)
    (i : nat) (p : string) :
  st <> ScriptFailed ->
  loadAsync pptxBlob = Ok zip ->
  findSlideFiles zip = Ok slideFiles ->
  1 <= i -> nth_error slideFiles i = Some p ->
  file_get zip p = Some Undecodable ->
  (exists e, injectTransitions zip = Throw e) /\
  applyTransitions st pptxBlob = Resolved pptxBlob.
Proof.
  intros Hst Hl Hf Hi Hp Hu.
  destruct (injectTransitions_throws zip slideFiles i p Hf Hi Hp Hu) as [e He].
  split; [now exists e|].
  unfold applyTransitions, try_body.
  destruct st as [|[|]|]; try contradiction; try reflexivity;
    (rewrite Hl; cbn [bind]; now rewrite He).
Qed.

Lemma slide_error_falls_back_witness :
  (exists e, injectTransitions deck3_unreadable = Throw e) /\
  applyTransitions JSZipDefined (Archive deck3_unreadable)
    = Resolved (Archive deck3_unreadable).
Proof.
  apply (slide_error_falls_back JSZipDefined (Archive deck3_unreadable)
           deck3_unreadable [slide1; slide2; slide3] 1 slide2).
  - discriminate.
  - reflexivity.
  - vm_compute. reflexivity.
  - lia.
  - reflexivity.
  - reflexivity.
Defined.

(** C1, as the spec words it, fails on a deck whose second slide cannot
    be decoded: the operation hands back the input, slide 3 without a
    transition, where skipping the slide would have given slide 3 its
    transition. *)
Lemma slide_error_aborts_run :
  applyTransitions JSZipDefined (Archive deck3_unreadable)
    = Resolved (Archive deck3_unreadable) /\
  applyTransitions_skipping (Archive deck3_unreadable)
    = Resolved (Archive deck3_unreadable_skipped) /\
  ~ slide_errors_stay_local (Archive deck3_unreadable).
Proof.
  assert (applyTransitions JSZipDefined (Archive deck3_unreadable)
          = Resolved (Archive deck3_unreadable)) as H1 by (vm_compute; reflexivity).
  assert (applyTransitions_skipping (Archive deck3_unreadable)
          = Resolved (Archive deck3_unreadable_skipped)) as H2 by (vm_compute; reflexivity).
  split; [exact H1|]. split; [exact H2|].
  unfold slide_errors_stay_local. rewrite H1, H2. intros E.
  vm_compute in E. discriminate E.
Qed.

(** ** The whole operation, twice *)

Section RoundTrip.
Context {Blob : Type} `{JSZipLib Blob}.

(** What [generateAsync] writes, [loadAsync] reads back. *)
Hypothesis generate_load :
  forall zip out, generateAsync zip = Ok out -> loadAsync out = Ok zip.

(** X6.  With a lossless archive library, applying the operation to its
    own output gives that output again, whether the first application
    went through or fell back to its input. *)
Lemma applyTransitions_twice (pptxBlob out : Blob) :
  applyTransitions JSZipDefined pptxBlob = Resolved out ->
  applyTransitions JSZipDefined out = Resolved out.
Proof.
  intros H1.
  destruct (applyTransitions_resolves JSZipDefined pptxBlob ltac:(discriminate))
    as [Hsame|(zip & zip' & out' & Hl & Hi & Hg & Hres)].
  - assert (out = pptxBlob) by congruence. now subst.
  - assert (out' = out) by congruence; subst out'.
    unfold applyTransitions, try_body.
    rewrite (generate_load _ _ Hg). cbn [bind].
    destruct (findSlideFiles_spec zip) as (l & Hf & _).
    destruct (run_settles_slides zip zip' l Hf Hi) as [Hpaths Hset].
    rewrite (settled_package_fixed zip' l); [cbn [bind]; now rewrite Hg | | exact Hset].
    now rewrite (findSlideFiles_paths _ _ Hpaths).
Qed.

End RoundTrip.

(** ** Worked examples *)

Example filter_examples :
  map test_slide_path
    [ "ppt/slides/slide1.xml"; "ppt/slides/slide10.xml"; "ppt/slides/slide.xml";
      "ppt/slides/slide1.xml.rels"; "ppt/slides/_rels/slide1.xml.rels";
      "ppt/slideLayouts/slideLayout1.xml"; "ppt/slideMasters/slideMaster1.xml";
      "ppt/slides/" ]
  = [ true; true; false; false; false; false; false; false ].
Proof. reflexivity. Qed.

Example sort_is_numeric :
  findSlideFiles deck11_lexical = Ok deck11.
Proof. vm_compute. reflexivity. Qed.

(** Equal numbers keep the order of the archive: the sort is stable. *)
Example sort_is_stable :
  findSlideFiles [ ("ppt/slides/slide02.xml", Text EmptyString);
                   ("ppt/slides/slide1.xml", Text EmptyString);
                   ("ppt/slides/slide2.xml", Text EmptyString) ]
  = Ok [ "ppt/slides/slide1.xml"; "ppt/slides/slide02.xml"; "ppt/slides/slide2.xml" ].
Proof. vm_compute. reflexivity. Qed.

(** Beyond 2^53 distinct ordinals can be the same Number: these two are,
    and the sort leaves them as the archive lists them. *)
Example unsafe_ordinals_tie :
  number_of "ppt/slides/slide9007199254740993.xml"
  = number_of "ppt/slides/slide9007199254740992.xml" /\
  findSlideFiles [ ("ppt/slides/slide9007199254740993.xml", Text EmptyString);
                   ("ppt/slides/slide9007199254740992.xml", Text EmptyString) ]
  = Ok [ "ppt/slides/slide9007199254740993.xml";
         "ppt/slides/slide9007199254740992.xml" ].
Proof. split; vm_compute; reflexivity. Qed.

(** A slide that already has a transition passes through untouched. *)
Example marked_slide_skipped :
  turn_text 1 ("<p:sld>" ++ fade_xml ++ "</p:sld>") = "<p:sld>" ++ fade_xml ++ "</p:sld>".
Proof. vm_compute. reflexivity. Qed.

(** When the library is neither defined nor loadable, the promise of
    [applyTransitions] rejects, whatever the blob. *)
Example rejects_without_library :
  applyTransitions ScriptFailed NotAnArchive = Rejected.
Proof. reflexivity. Qed.

(* ================================================================= *)
(** * Further properties of the run *)

(** X1.  A package with no slide entry or with one is returned as it is:
    the loop makes no turn, so nothing is read, not even an entry that
    could not be decoded. *)
Theorem short_deck_returned_as_is (zip : JSZip) :
  length (slide_entries zip) <= 1 ->
  injectTransitions zip = Ok zip.
Proof.
  intros Hlen.
  destruct (findSlideFiles_spec zip) as (l & Hf & Hp & _).
  apply Permutation_length in Hp.
  unfold injectTransitions. rewrite Hf. cbn [bind].
  destruct l as [|a [|b l]]; simpl in *; try reflexivity. lia.
Qed.

Lemma short_deck_returned_as_is_witness :
  injectTransitions deck1_unreadable = Ok deck1_unreadable.
Proof.
  apply short_deck_returned_as_is. vm_compute. lia.
Defined.

(** X2.  The run returns exactly when every slide from position 1 on can
    be read as text; the slide at position 0 plays no part. *)
Theorem run_returns_iff_later_slides_readable (zip : JSZip) (slideFiles : list string) :
  findSlideFiles zip = Ok slideFiles ->
  ((exists zip', injectTransitions zip = Ok zip') <->
   later_slides_readable zip slideFiles).
Proof.
  intros Hf. split.
  - intros [zip' Hi] j p Hj Hp.
    destruct (nth_error_slide _ _ _ _ Hf Hp) as [_ Hin].
    destruct (In_file_get _ _ Hin) as [[x|] Hd]; [now exists x|].
    destruct (injectTransitions_throws zip slideFiles j p Hf Hj Hp Hd) as [e He].
    congruence.
  - now apply injectTransitions_total.
Qed.

Lemma run_returns_iff_later_slides_readable_witness :
  (exists zip', injectTransitions deck3_unreadable = Ok zip') <->
  later_slides_readable deck3_unreadable [slide1; slide2; slide3].
Proof.
  apply run_returns_iff_later_slides_readable. vm_compute. reflexivity.
Defined.

(** The paths the loop indexes are entries of the package at every turn,
    so the one exception it can meet is a failed decoding. *)
Lemma for_loop_throws_ZipError (slideFiles : list string) (n i : nat)
    (zip : JSZip) (e : Exception) :
  n = 0 \/ i + n <= length slideFiles ->
  (forall p, In p slideFiles -> In p (paths zip)) ->
  for_loop slideFiles n i zip = Throw e -> e = ZipError.
Proof.
  revert i zip; induction n as [|n IH]; intros i zip Hlen Hin H; simpl in H;
    [discriminate|].
  destruct (nth_error slideFiles i) as [p|] eqn:Hp;
    [|apply nth_error_None in Hp; lia].
  destruct (In_file_get zip p (Hin p (nth_error_In _ _ Hp))) as [[x|] Hd].
  - pose proof (injectSlide_readable _ _ _ _ _ Hp Hd) as T.
    destruct (injectSlide slideFiles i zip) as [z1|e1] eqn:T1; [clear T|discriminate].
    cbn [bind] in H.
    apply injectSlide_Ok in T1 as (_ & _ & _ & _ & _ & _ & _ & Hpaths).
    apply (IH (S i) z1); [lia | | assumption].
    intros q Hq. rewrite Hpaths. now apply Hin.
  - rewrite (injectSlide_undecodable _ _ _ _ Hp Hd) in H. cbn [bind] in H.
    congruence.
Qed.

(** X3.  Whatever the package, the run throws nothing but the rejection
    of a decoding: the match of the comparator, the element
    [slideFiles[i]] and the entry [zip.file(slideFiles[i])] are never
    null or undefined. *)
Theorem run_throws_only_ZipError (zip : JSZip) (e : Exception) :
  injectTransitions zip = Throw e -> e = ZipError.
Proof.
  intros H. unfold injectTransitions in H.
  destruct (findSlideFiles_spec zip) as (l & Hf & _).
  rewrite Hf in H. cbn [bind] in H.
  apply (for_loop_throws_ZipError l (length l - 1) 1 zip e); [| |assumption].
  - destruct l; [now left | right; simpl; lia].
  - intros p Hp. apply findSlideFiles_members in Hf as (_ & _ & Hall).
    rewrite Forall_forall in Hall. now apply Hall.
Qed.

Lemma run_throws_only_ZipError_witness :
  injectTransitions deck3_unreadable = Throw ZipError.
Proof.
  destruct (injectTransitions deck3_unreadable) as [z|e] eqn:H.
  - vm_compute in H. discriminate H.
  - now rewrite (run_throws_only_ZipError _ _ H).
Defined.

(** X4.  A transition that is already there is kept: an entry whose text
    carries the marker holds the same text after the run, at whatever
    position it stands. *)
Theorem marked_slide_keeps_text (zip zip' : JSZip) (p x : string) :
  file_get zip p = Some (Text x) ->
  occurs marker x ->
  injectTransitions zip = Ok zip' ->
  file_get zip' p = Some (Text x).
Proof.
  intros Hx Hm Hi. apply injectTransitions_Ok in Hi as (l & Hl & Hloop).
  pose (P := fun (_ : nat) (z : JSZip) => file_get z p = Some (Text x)).
  assert (P (length l - 1 + 1) zip') as Hend; [|exact Hend].
  apply (for_loop_invariant P l) with (z := zip); [|assumption|assumption].
  intros j z z1 Hz T. unfold P in *.
  apply injectSlide_Ok in T as (q & y & _ & Hy & _ & Hnew & Hother & _).
  destruct (String.eqb_spec p q) as [<-|Hne]; [|now rewrite Hother].
  assert (y = x) by congruence; subst y.
  now rewrite Hnew, (turn_text_marked j x Hm).
Qed.

Lemma marked_slide_keeps_text_witness :
  exists zip',
    injectTransitions deck3_marked = Ok zip' /\
    file_get zip' slide2 = file_get deck3_marked slide2.
Proof.
  destruct (injectTransitions deck3_marked) as [zip'|e] eqn:H.
  - exists zip'. split; [reflexivity|].
    apply (marked_slide_keeps_text deck3_marked zip' slide2); [reflexivity| |exact H].
    apply indexOf_present. vm_compute. reflexivity.
  - vm_compute in H. discriminate H.
Defined.

(** ** The run in closed form *)

Lemma position_nth (p : string) (l : list string) (j : nat) :
  position p l = Some j -> nth_error l j = Some p.
Proof.
  revert j; induction l as [|q l IH]; simpl; intros j H; [discriminate|].
  destruct (String.eqb_spec q p) as [->|Hne].
  - now inversion H.
  - destruct (position p l) as [k|]; [|discriminate].
    inversion H; subst. simpl. now apply IH.
Qed.

Lemma position_None (p : string) (l : list string) :
  position p l = None -> ~ In p l.
Proof.
  induction l as [|q l IH]; simpl; intros H; [tauto|].
  destruct (String.eqb_spec q p) as [->|Hne]; [discriminate|].
  destruct (position p l); [discriminate|].
  intros [E|Hin]; [contradiction | now apply IH].
Qed.

Lemma file_get_transitioned (slideFiles : list string) (zip : JSZip) (q : string) :
  file_get (map (transitioned slideFiles) zip) q =
  match file_get zip q with
  | Some d => Some (snd (transitioned slideFiles (q, d)))
  | None => None
  end.
Proof.
  induction zip as [|[k d] zip IH]; [reflexivity|].
  cbn [map file_get].
  assert (fst (transitioned slideFiles (k, d)) = k) as Hk.
  { destruct d as [x|]; simpl; [|reflexivity].
    now destruct (position k slideFiles) as [[|j]|]. }
  destruct (transitioned slideFiles (k, d)) as [k' d'] eqn:T. simpl in Hk. subst k'.
  cbn [file_get].
  destruct (String.eqb_spec k q) as [->|Hne]; [now rewrite T | exact IH].
Qed.

(** An entry under a path that no later turn indexes is not written. *)
Lemma for_loop_unvisited_untouched (slideFiles : list string) (n i : nat)
    (zip zip' : JSZip) (q : string) :
  for_loop slideFiles n i zip = Ok zip' ->
  (forall j, i <= j -> nth_error slideFiles j <> Some q) ->
  file_get zip' q = file_get zip q.
Proof.
  intros Hloop Hq.
  pose (P := fun (k : nat) (z : JSZip) =>
    i <= k /\ file_get z q = file_get zip q).
  assert (P (n + i) zip') as [_ Hsame]; [|exact Hsame].
  apply (for_loop_invariant P slideFiles) with (z := zip);
    [|split; [lia | reflexivity]|assumption].
  intros k z z1 [Hk Hs] T.
  apply injectSlide_Ok in T as (p & x & Hp & _ & _ & _ & Hother & _).
  split; [lia|]. rewrite Hother; [assumption|].
  intros ->. now apply (Hq k).
Qed.

(** X5.  The run in closed form, entry by entry: on a package with
    distinct paths whose slides from position 1 on are readable, the run
    returns, and every entry the package had holds afterwards what
    [transitioned] makes of it: each slide at a position from 1 on the
    text of its own turn, every other entry what it held. *)
Theorem run_entry_by_entry (zip : JSZip) (slideFiles : list string) :
  NoDup (paths zip) ->
  findSlideFiles zip = Ok slideFiles ->
  later_slides_readable zip slideFiles ->
  exists zip',
    injectTransitions zip = Ok zip' /\
    forall q d, file_get zip q = Some d ->
      file_get zip' q = Some (snd (transitioned slideFiles (q, d))).
Proof.
  intros Hn Hf Hr.
  destruct (injectTransitions_total zip slideFiles Hf Hr) as [zip' Hi].
  exists zip'. split; [assumption|]. intros q d Hd.
  pose proof (findSlideFiles_NoDup _ _ Hn Hf) as Hnd.
  destruct (injectTransitions_Ok _ _ Hi) as (l & Hl & Hloop).
  assert (l = slideFiles) by congruence; subst l.
  destruct (position q slideFiles) as [[|j]|] eqn:Hpos.
  - rewrite (for_loop_unvisited_untouched _ _ _ _ _ q Hloop).
    + rewrite Hd. destruct d as [x|]; simpl; now rewrite ?Hpos.
    + intros j Hj Hq. pose proof (position_nth _ _ _ Hpos) as Hnth.
      apply (nth_error_distinct slideFiles 0 j q q Hnd Hnth Hq); [lia | reflexivity].
  - pose proof (position_nth _ _ _ Hpos) as Hnth.
    destruct (Hr (S j) q ltac:(lia) Hnth) as [x Hx].
    rewrite (injectTransitions_pointwise _ _ _ Hn Hf Hi (S j) q x ltac:(lia) Hnth Hx).
    assert (d = Text x) by congruence; subst d. simpl. now rewrite Hpos.
  - rewrite (for_loop_unvisited_untouched _ _ _ _ _ q Hloop).
    + rewrite Hd. destruct d as [x|]; simpl; now rewrite ?Hpos.
    + intros j _ Hq. apply position_None in Hpos. apply Hpos.
      now apply nth_error_In in Hq.
Qed.

Lemma run_entry_by_entry_witness :
  exists zip',
    injectTransitions deck3 = Ok zip' /\
    file_get zip' slide2
      = Some (snd (transitioned [slide1; slide2; slide3] (slide2, Text (sld "two")))) /\
    file_get zip' "ppt/presentation.xml" = Some (Text "<p:presentation/>").
Proof.
  destruct (run_entry_by_entry deck3 [slide1; slide2; slide3]) as (zip' & Hi & Hall).
  - apply distinctb_NoDup. vm_compute. reflexivity.
  - vm_compute. reflexivity.
  - intros j p Hj Hp. destruct j as [|[|[|j]]]; [lia | | |].
    + inversion Hp; subst. eexists. reflexivity.
    + inversion Hp; subst. eexists. reflexivity.
    + destruct j; discriminate.
  - exists zip'. split; [exact Hi|]. split.
    + apply Hall. reflexivity.
    + apply (Hall "ppt/presentation.xml" (Text "<p:presentation/>")). reflexivity.
Defined.

Lemma applyTransitions_twice_witness :
  applyTransitions JSZipDefined (Archive deck3_out) = Resolved (Archive deck3_out).
Proof.
  apply (applyTransitions_twice (Blob := SampleBlob)) with (pptxBlob := Archive deck3).
  - intros zip out H. inversion H. reflexivity.
  - vm_compute. reflexivity.
Defined.

(** ** The sort, on equal numbers *)

Lemma compareFn_value (a b : string) (c : Z) :
  compareFn a b = Ok c ->
  c = (Z.of_N (number_of a) - Z.of_N (number_of b))%Z.
Proof.
  unfold compareFn, number_of.
  destruct (slideNumber a) as [m|]; [|discriminate].
  destruct (slideNumber b) as [n|]; [|discriminate].
  cbn [bind]. now inversion 1.
Qed.

Lemma insert_keeps_ties (k : N) (x : string) (l r : list string) :
  insert compareFn x l = Ok r ->
  filter (fun p => N.eqb (number_of p) k) r =
  filter (fun p => N.eqb (number_of p) k) (x :: l).
Proof.
  revert r; induction l as [|y l IH]; intros r H; simpl in H.
  - now inversion H.
  - destruct (compareFn x y) as [c|] eqn:C; [|discriminate]. cbn [bind] in H.
    apply compareFn_value in C.
    destruct (Z.leb_spec c 0) as [Hle|Hgt]; [now inversion H|].
    destruct (insert compareFn x l) as [r'|] eqn:I; [|discriminate].
    cbn [bind] in H. inversion H; subst r; clear H.
    specialize (IH r' eq_refl). cbn [filter] in *. rewrite IH.
    destruct (N.eqb_spec (number_of x) k) as [Hx|Hx]; [|reflexivity].
    destruct (N.eqb_spec (number_of y) k) as [Hy|Hy]; [lia | reflexivity].
Qed.

(** X7.  Slides whose names parse to the same number (slide1.xml and
    slide01.xml, say) stay in the order in which the archive lists them:
    the comparator answers 0 for them and the sort is stable. *)
Theorem ties_keep_archive_order (zip : JSZip) (slideFiles : list string) (k : N) :
  findSlideFiles zip = Ok slideFiles ->
  filter (fun p => N.eqb (number_of p) k) slideFiles =
  filter (fun p => N.eqb (number_of p) k) (slide_entries zip).
Proof.
  unfold findSlideFiles, slide_entries.
  generalize (filter test_slide_path (paths zip)) as l.
  intros l; revert slideFiles; induction l as [|x l IH]; intros r H; simpl in H.
  - now inversion H.
  - destruct (sort compareFn l) as [s|] eqn:S; [|discriminate]. cbn [bind] in H.
    rewrite (insert_keeps_ties k x s r H). cbn [filter].
    now rewrite (IH s eq_refl).
Qed.

Lemma ties_keep_archive_order_witness :
  filter (fun p => N.eqb (number_of p) 2)
    [ "ppt/slides/slide1.xml"; "ppt/slides/slide02.xml"; "ppt/slides/slide2.xml" ]
  = [ "ppt/slides/slide02.xml"; "ppt/slides/slide2.xml" ].
Proof.
  rewrite (ties_keep_archive_order
             [ ("ppt/slides/slide02.xml", Text EmptyString);
               ("ppt/slides/slide1.xml", Text EmptyString);
               ("ppt/slides/slide2.xml", Text EmptyString) ]
             [ "ppt/slides/slide1.xml"; "ppt/slides/slide02.xml";
               "ppt/slides/slide2.xml" ] 2).
  - vm_compute. reflexivity.
  - vm_compute. reflexivity.
Defined.

(** ** The filter and the comparator on the same name *)

(** X8.  The filter accepts exactly the names ppt/slides/slide, digits,
    .xml, and on such a name the comparator captures that very digit run:
    the number it sorts by is the number in the file name, leading zeros
    aside, and nothing of a layout, master or relationship part passes. *)
Theorem filter_and_comparator_agree (path : string) :
  (test_slide_path path = true <-> slide_named path) /\
  (test_slide_path path = true ->
   exists ds,
     path = "ppt/slides/slide" ++ ds ++ ".xml" /\
     ds <> EmptyString /\ digits_only ds = true /\
     match_slide_digits path = Some ds /\
     number_of path = parseInt ds).
Proof.
  split; [apply test_slide_path_iff|].
  intros H. apply test_slide_path_iff in H as (ds & Hne & Hd & ->).
  exists ds. repeat split; try assumption.
  - now apply match_slide_digits_named.
  - unfold number_of, slideNumber.
    now rewrite (match_slide_digits_named ds Hne Hd).
Qed.

Lemma filter_and_comparator_agree_witness :
  (exists ds, match_slide_digits "ppt/slides/slide007.xml" = Some ds /\
              number_of "ppt/slides/slide007.xml" = parseInt ds) /\
  ~ slide_named "ppt/slides/_rels/slide7.xml.rels".
Proof.
  destruct (filter_and_comparator_agree "ppt/slides/slide007.xml") as [_ H].
  destruct (H eq_refl) as (ds & _ & _ & _ & Hm & Hn).
  split; [now exists ds|].
  intros Hs.
  apply (proj1 (filter_and_comparator_agree "ppt/slides/_rels/slide7.xml.rels")) in Hs.
  vm_compute in Hs. discriminate Hs.
Defined.

(* ================================================================= *)
(** * loadScript and the page *)

Lemma JSZIP_URL_plain : selector_plain JSZIP_URL = true.
Proof. vm_compute. reflexivity. Qed.

Lemma has_script_appended (src : string) (l : list string) :
  existsb (String.eqb src) (l ++ [src])%list = true.
Proof.
  rewrite existsb_app. simpl. rewrite String.eqb_refl.
  now rewrite orb_true_r.
Qed.

Lemma has_script_count (src : string) (l : list string) :
  existsb (String.eqb src) l = false -> count_occ string_dec l src = 0.
Proof.
  intros H. apply count_occ_not_In. intros Hin.
  enough (existsb (String.eqb src) l = true) by congruence.
  apply existsb_exists. exists src. split; [assumption | apply String.eqb_refl].
Qed.




Section OnThePage.
Context {Blob : Type} `{JSZipLib Blob}.

(** X10.  How the promise of [applyTransitions] settles, by what the
    call finds: with JSZip undefined and no script element for the
    library in the document, a fetch that ends in an error makes it
    reject; with JSZip defined, or such an element already there, or a
    fetch that ends in a load event, it resolves, with the blob that came
    in or with the one [generateAsync] made of the processed package. *)
Theorem settles_by_page_and_fetch (ev : ScriptEvent) (env : ScriptEnv) (pptxBlob : Blob) :
  (JSZip_defined env = false -> has_script JSZIP_URL env = false ->
   ev = ScriptError ->
   snd (applyTransitions_on ev env pptxBlob) = Rejected) /\
  (JSZip_defined env = true \/ has_script JSZIP_URL env = true \/
   (exists defines, ev = ScriptLoad defines) ->
   snd (applyTransitions_on ev env pptxBlob) = Resolved pptxBlob \/
   exists zip zip' out,
     loadAsync pptxBlob = Ok zip /\ injectTransitions zip = Ok zip' /\
     generateAsync zip' = Ok out /\
     snd (applyTransitions_on ev env pptxBlob) = Resolved out).
Proof.
  split.
  - intros D S ->. unfold applyTransitions_on, startup, loadScript.
    now rewrite D, S.
  - intros Hcase. unfold applyTransitions_on, startup, loadScript.
    destruct (JSZip_defined env) eqn:D; cbn [snd].
    + apply applyTransitions_resolves. discriminate.
    + destruct (has_script JSZIP_URL env) eqn:S; cbn [snd].
      * apply applyTransitions_resolves. discriminate.
      * destruct Hcase as [Hd|[Hs|[defines ->]]]; try discriminate.
        cbn [snd]. apply applyTransitions_resolves. discriminate.
Qed.

(** X11.  After a call whose fetch of the library failed, every later
    call, whatever the network would do then, resolves with the blob it
    was given and leaves the page alone: the script element stays in the
    document, so the fetch is not tried again and JSZip stays undefined. *)
Theorem failed_fetch_disables_transitions (env : ScriptEnv) (blob0 : Blob) :
  JSZip_defined env = false ->
  has_script JSZIP_URL env = false ->
  let env1 := fst (applyTransitions_on ScriptError env blob0) in
  snd (applyTransitions_on ScriptError env blob0) = Rejected /\
  forall ev pptxBlob,
    applyTransitions_on ev env1 pptxBlob = (env1, Resolved pptxBlob).
Proof.
  intros D S.
  assert (applyTransitions_on ScriptError env blob0
          = (mkScriptEnv false (script_srcs env ++ [JSZIP_URL])%list, Rejected)) as E.
  { unfold applyTransitions_on, startup, loadScript. now rewrite D, S. }
  rewrite E. cbn [fst snd]. split; [reflexivity|].
  intros ev pptxBlob.
  unfold applyTransitions_on, startup, loadScript, has_script.
  cbn [JSZip_defined script_srcs]. now rewrite has_script_appended.
Qed.

(** The scripts of the page after one call: as before, or with one
    element for the library appended where there was none. *)
Lemma call_scripts (ev : ScriptEvent) (env : ScriptEnv) (pptxBlob : Blob) :
  script_srcs (fst (applyTransitions_on ev env pptxBlob)) = script_srcs env \/
  (has_script JSZIP_URL env = false /\
   script_srcs (fst (applyTransitions_on ev env pptxBlob))
   = (script_srcs env ++ [JSZIP_URL])%list).
Proof.
  unfold applyTransitions_on, startup, loadScript.
  destruct (JSZip_defined env); [now left|].
  destruct (has_script JSZIP_URL env); [now left|].
  right. split; [reflexivity|]. now destruct ev.
Qed.

(** X12.  However many calls are made and whatever the network does, the
    document never gets a second script element for the library, and no
    other script element is added or removed. *)
Theorem one_script_element_at_most (calls : list (ScriptEvent * Blob)) (env : ScriptEnv) :
  count_occ string_dec (script_srcs (page_after calls env)) JSZIP_URL
    <= Nat.max 1 (count_occ string_dec (script_srcs env) JSZIP_URL) /\
  forall src, src <> JSZIP_URL ->
    count_occ string_dec (script_srcs (page_after calls env)) src
    = count_occ string_dec (script_srcs env) src.
Proof.
  revert env; induction calls as [|[ev blob] calls IH]; intros env;
    cbn [page_after].
  - split; [lia | reflexivity].
  - destruct (IH (fst (applyTransitions_on ev env blob))) as [IH1 IH2].
    destruct (call_scripts ev env blob) as [E|[S E]]; rewrite E in *.
    + split; assumption.
    + rewrite count_occ_app, (count_occ_cons_eq string_dec _ eq_refl) in IH1.
      cbn [count_occ] in IH1.
      unfold has_script in S. rewrite (has_script_count _ _ S) in *.
      split; [lia|].
      intros src Hsrc. rewrite (IH2 src Hsrc), count_occ_app.
      rewrite (count_occ_cons_neq string_dec); [cbn [count_occ]; lia|].
      congruence.
Qed.

End OnThePage.

Lemma failed_fetch_disables_transitions_witness :
  snd (applyTransitions_on ScriptError bare_page (Archive deck3)) = Rejected /\
  applyTransitions_on (ScriptLoad true)
    (fst (applyTransitions_on ScriptError bare_page (Archive deck3)))
    (Archive deck3)
  = (fst (applyTransitions_on ScriptError bare_page (Archive deck3)),
     Resolved (Archive deck3)).
Proof.
  destruct (failed_fetch_disables_transitions bare_page (Archive deck3)) as [H1 H2].
  - reflexivity.
  - reflexivity.
  - split; [exact H1 | apply H2].
Defined.

(* ================================================================= *)
(** * downloadBlob *)

Lemma resolve_url_fresh {Blob : Type} (url : nat) (blob : Blob) (urls : list (nat * Blob)) :
  Forall (fun e => fst e < url) urls ->
  resolve_url url (urls ++ [(url, blob)])%list = Some blob.
Proof.
  induction 1 as [|[u b] urls Hu _ IH]; simpl.
  - now rewrite Nat.eqb_refl.
  - simpl in Hu. destruct (Nat.eqb_spec u url); [lia | exact IH].
Qed.

Lemma revoke_url_fresh {Blob : Type} (url : nat) (blob : Blob) (urls : list (nat * Blob)) :
  Forall (fun e => fst e < url) urls ->
  revoke_url url (urls ++ [(url, blob)])%list = urls.
Proof.
  unfold revoke_url. induction 1 as [|[u b] urls Hu _ IH]; simpl.
  - now rewrite Nat.eqb_refl.
  - simpl in Hu. destruct (Nat.eqb_spec u url); [lia|]. simpl. now rewrite IH.
Qed.

Lemma remove_fresh (a : nat) (children : list nat) :
  Forall (fun n => n < a) children ->
  remove Nat.eq_dec a (children ++ [a])%list = children.
Proof.
  induction 1 as [|n children Hn _ IH]; simpl.
  - destruct (Nat.eq_dec a a); [reflexivity | contradiction].
  - destruct (Nat.eq_dec a n); [lia | now rewrite IH].
Qed.

(** X13.  On a page with a body, [downloadBlob] returns normally, starts
    one download, of the blob under the file name, and cleans up after
    itself: the body has the children it had and the object URL made for
    the download is revoked, every other live URL being kept. *)
Theorem downloadBlob_cleans_up {Blob : Type} (blob : Blob) (filename : string)
    (page : DownloadPage Blob) (children : list nat) :
  page_consistent page ->
  body_children page = Some children ->
  exists page',
    downloadBlob blob filename page = (page', Ok tt) /\
    body_children page' = Some children /\
    object_urls page' = object_urls page /\
    downloads page' = (downloads page ++ [(filename, blob)])%list /\
    page_consistent page'.
Proof.
  intros [Hb Hu] Hc. specialize (Hb children Hc).
  unfold downloadBlob. rewrite Hc.
  rewrite (resolve_url_fresh _ _ _ Hu), (revoke_url_fresh _ _ _ Hu),
          (remove_fresh _ _ Hb).
  eexists. split; [reflexivity|]. cbn. repeat split; try reflexivity.
  - intros c Hc'. inversion Hc'; subst c.
    apply (Forall_impl _ (fun n Hn => Nat.lt_lt_succ_r _ _ Hn) Hb).
  - apply (Forall_impl _ (fun e He => Nat.lt_lt_succ_r _ _ He) Hu).
Qed.

Lemma downloadBlob_cleans_up_witness :
  exists page',
    downloadBlob (Archive deck3) "deck.pptx" sample_page = (page', Ok tt) /\
    body_children page' = Some [0; 1] /\
    object_urls page' = object_urls sample_page /\
    downloads page' = [("deck.pptx", Archive deck3)].
Proof.
  destruct (downloadBlob_cleans_up (Archive deck3) "deck.pptx" sample_page [0; 1])
    as (page' & H1 & H2 & H3 & H4 & _).
  - split.
    + intros c Hc. inversion Hc; subst c. repeat constructor.
    + repeat constructor.
  - reflexivity.
  - exists page'. auto.
Defined.

(** X14.  While the document has no body, [downloadBlob] throws a
    TypeError at [document.body.appendChild]; nothing is downloaded, and
    the object URL made at the start of the call is not revoked: it
    stays alive and still stands for the blob. *)
Theorem downloadBlob_without_body_leaks {Blob : Type} (blob : Blob) (filename : string)
    (page : DownloadPage Blob) :
  page_consistent page ->
  body_children page = None ->
  snd (downloadBlob blob filename page) = Throw TypeError /\
  downloads (fst (downloadBlob blob filename page)) = downloads page /\
  resolve_url (next_url page) (object_urls (fst (downloadBlob blob filename page)))
    = Some blob /\
  length (object_urls (fst (downloadBlob blob filename page)))
    = S (length (object_urls page)).
Proof.
  intros [_ Hu] Hc. unfold downloadBlob. rewrite Hc. cbn.
  repeat split.
  - now apply resolve_url_fresh.
  - rewrite length_app. simpl. lia.
Qed.

Lemma downloadBlob_without_body_leaks_witness :
  snd (downloadBlob NotAnArchive "deck.pptx"
         (mkDownloadPage None [] 0 0 [])) = Throw TypeError /\
  resolve_url 0
    (object_urls (fst (downloadBlob NotAnArchive "deck.pptx"
                         (mkDownloadPage None [] 0 0 [])))) = Some NotAnArchive.
Proof.
  destruct (downloadBlob_without_body_leaks NotAnArchive "deck.pptx"
              (mkDownloadPage None [] 0 0 [])) as (H1 & _ & H3 & _).
  - split; [intros c Hc; discriminate Hc | constructor].
  - reflexivity.
  - split; [exact H1 | exact H3].
Defined.
